(** * evmone: instruction handlers and the execution loop

    A shallow embedding of [lib/evmone/instructions.cpp] and
    [lib/evmone/execution.cpp].

    Conventions.
    - A [const instruction*] is an index into the instruction array of the
      code analysis ([nat]); the null pointer is [None].  [++instr] is the
      successor index.
    - The 256-bit words of the stack are [Z] in [0, 2^256); the top of the
      stack is the head of the list.
    - [int64_t] quantities ([gas_left], [arg.number]) are exact integers:
      signed overflow has no defined behaviour in C++, and gas never leaves
      the 64-bit range on the paths considered.  Unsigned 32- and 64-bit
      arithmetic wraps and the wrap-around is written out; [size_t] is
      64 bits wide.
    - Everything the handlers call that is declared in headers outside the
      two translated files (the memory check, the instruction bodies, the
      host operations, the multiplication kernel) is an explicit parameter,
      collected in the class [Collaborators].  The addition and subtraction
      kernels of [bigint.h] are modelled from the specification, for an
      output that overlaps no operand; what they leave otherwise is a
      parameter too.
    - [execute] starts from a value-initialised [execution_state], whose
      status is the enumerator with value 0, [EVMC_SUCCESS]; the handlers
      write the status through [execution_state::exit] only. *)

From Stdlib Require Import ZArith NArith List Bool Lia Ascii.
Import ListNotations.
Local Open Scope Z_scope.

(** ** Status codes, revisions, messages (EVMC) *)

Inductive evmc_status_code : Type :=
| EVMC_SUCCESS
| EVMC_FAILURE
| EVMC_REVERT
| EVMC_OUT_OF_GAS
| EVMC_INVALID_INSTRUCTION
| EVMC_UNDEFINED_INSTRUCTION
| EVMC_STACK_OVERFLOW
| EVMC_STACK_UNDERFLOW
| EVMC_BAD_JUMP_DESTINATION
| EVMC_INVALID_MEMORY_ACCESS
| EVMC_CALL_DEPTH_EXCEEDED
| EVMC_STATIC_MODE_VIOLATION
| EVMC_PRECOMPILE_FAILURE
| EVMC_CONTRACT_VALIDATION_FAILURE
| EVMC_ARGUMENT_OUT_OF_RANGE
| EVMC_INTERNAL_ERROR
| EVMC_REJECTED
| EVMC_OUT_OF_MEMORY.

Definition status_eqb (a b : evmc_status_code) : bool :=
  match a, b with
  | EVMC_SUCCESS, EVMC_SUCCESS
  | EVMC_FAILURE, EVMC_FAILURE
  | EVMC_REVERT, EVMC_REVERT
  | EVMC_OUT_OF_GAS, EVMC_OUT_OF_GAS
  | EVMC_INVALID_INSTRUCTION, EVMC_INVALID_INSTRUCTION
  | EVMC_UNDEFINED_INSTRUCTION, EVMC_UNDEFINED_INSTRUCTION
  | EVMC_STACK_OVERFLOW, EVMC_STACK_OVERFLOW
  | EVMC_STACK_UNDERFLOW, EVMC_STACK_UNDERFLOW
  | EVMC_BAD_JUMP_DESTINATION, EVMC_BAD_JUMP_DESTINATION
  | EVMC_INVALID_MEMORY_ACCESS, EVMC_INVALID_MEMORY_ACCESS
  | EVMC_CALL_DEPTH_EXCEEDED, EVMC_CALL_DEPTH_EXCEEDED
  | EVMC_STATIC_MODE_VIOLATION, EVMC_STATIC_MODE_VIOLATION
  | EVMC_PRECOMPILE_FAILURE, EVMC_PRECOMPILE_FAILURE
  | EVMC_CONTRACT_VALIDATION_FAILURE, EVMC_CONTRACT_VALIDATION_FAILURE
  | EVMC_ARGUMENT_OUT_OF_RANGE, EVMC_ARGUMENT_OUT_OF_RANGE
  | EVMC_INTERNAL_ERROR, EVMC_INTERNAL_ERROR
  | EVMC_REJECTED, EVMC_REJECTED
  | EVMC_OUT_OF_MEMORY, EVMC_OUT_OF_MEMORY => true
  | _, _ => false
  end.

Inductive evmc_revision : Type :=
| EVMC_FRONTIER
| EVMC_HOMESTEAD
| EVMC_TANGERINE_WHISTLE
| EVMC_SPURIOUS_DRAGON
| EVMC_BYZANTIUM
| EVMC_CONSTANTINOPLE
| EVMC_PETERSBURG
| EVMC_ISTANBUL
| EVMC_BERLIN.

Inductive evmc_call_kind : Type :=
| EVMC_CALL
| EVMC_DELEGATECALL
| EVMC_CALLCODE
| EVMC_CREATE
| EVMC_CREATE2.

(** Of the call message only [gas] is read by the translated code. *)
Record evmc_message : Type := { gas : Z }.

(** ** Instructions *)

(** Modelled from the spec: [block_info] is declared in [analysis.hpp].
    BlockInfo is a non-negative gas cost, a minimum stack depth and a
    signed bound on the net stack growth across the block. *)
Record block_info : Type := {
  gas_cost : N;
  stack_req : Z;
  stack_max_growth : Z
}.

(** Modelled from the spec: the argument of an instruction (the union
    [instruction_argument] of [analysis.hpp]) is a program-counter number,
    an immediate push value, a small inline push value or a BlockInfo.
    Reading a member other than the one the analysis stored is not done by
    any handler on a well-formed stream; the projections return zero
    there. *)
Inductive instruction_argument : Type :=
| in_number (n : Z)
| in_push_value (v : Z)
| in_small_push_value (v : Z)
| in_block (b : block_info).

Definition number (a : instruction_argument) : Z :=
  match a with in_number n => n | _ => 0 end.

Definition push_value (a : instruction_argument) : Z :=
  match a with in_push_value v => v | _ => 0 end.

Definition small_push_value (a : instruction_argument) : Z :=
  match a with in_small_push_value v => v | _ => 0 end.

Definition block (a : instruction_argument) : block_info :=
  match a with
  | in_block b => b
  | _ => {| gas_cost := 0%N; stack_req := 0; stack_max_growth := 0 |}
  end.

(** The instruction bodies that the table wraps with the [op] template.
    They are defined in [instructions.hpp]; only their names occur in the
    translated file. *)
Module InstrFn.
Inductive name : Type :=
| add | mul | sub | div | sdiv | mod_ | smod | addmod | mulmod | exp
| signextend | lt | gt | slt | sgt | eq | iszero | and_ | or_ | xor_ | not_
| byte | sha3 | address | balance | origin | caller | callvalue
| calldataload | calldatasize | calldatacopy | codesize | codecopy
| gasprice | extcodesize | extcodecopy | returndatasize | returndatacopy
| blockhash | coinbase | timestamp | number | difficulty | gaslimit
| pop | mload | mstore | mstore8 | sload | msize
| dup (opcode : Z) | swap (opcode : Z)
| shl | shr | sar | extcodehash | chainid | selfbalance.
End InstrFn.

(** The handlers an [instruction_exec_fn] pointer can designate. *)
Module Fn.
Inductive t : Type :=
| op (f : InstrFn.name)
| op_stop
| op_sstore
| op_jump
| op_jumpi
| op_pc
| op_gas
| op_push_small
| op_push_full
| op_log (LogOp : Z)
| op_invalid
| op_return (status_code : evmc_status_code)
| op_call (Kind : evmc_call_kind) (Static : bool)
| op_create (Kind : evmc_call_kind)
| op_undefined
| op_selfdestruct
| opx_beginblock
| op_addmod384
| op_submod384
| op_mulmodmont384.
End Fn.

Definition instruction_exec_fn : Type := Fn.t.

(** Modelled from the spec: an instruction is a handler reference and an
    argument ([instruction] of [analysis.hpp]). *)
Record instruction : Type := {
  fn : instruction_exec_fn;
  arg : instruction_argument
}.

(** Modelled from the spec: [code_analysis] and [find_jumpdest] are declared
    in [analysis.hpp].  The analysis hands over the instruction stream and
    a jump-destination lookup from a program counter to an instruction
    index; a negative result means that the position is not a valid
    destination. *)
Record code_analysis : Type := {
  instrs : list instruction;
  jumpdest_lookup : Z -> Z
}.

Definition find_jumpdest (analysis : code_analysis) (offset : Z) : Z :=
  jumpdest_lookup analysis offset.

(** ** Memory

    A byte buffer with a size.  The contents are a total function so that a
    buffer of several gigabytes (offsets are 32-bit) need not be built;
    whether an index is inside the buffer is what [check_memory]
    establishes before a handler touches it. *)
Record evm_memory : Type := {
  mem_size : Z;
  mem_byte : Z -> Z
}.

Definition empty_memory : evm_memory :=
  {| mem_size := 0; mem_byte := fun _ => 0 |}.

(** Little-endian load of [n] bytes starting at [off].  A cell is read
    modulo 256, so that every function denotes a buffer of bytes. *)
Fixpoint load_le (m : Z -> Z) (off : Z) (n : nat) : Z :=
  match n with
  | O => 0
  | S n' => m off mod 256 + 256 * load_le m (off + 1) n'
  end.

(** Little-endian store of the [n] low bytes of [v] starting at [off]. *)
Definition store_le (m : Z -> Z) (off : Z) (n : Z) (v : Z) : Z -> Z :=
  fun i => if (off <=? i) && (i <? off + n) then (v / 2 ^ (8 * (i - off))) mod 256 else m i.

(** [*reinterpret_cast<const uint32_t*>(&bytes[off])], and the 64-bit one. *)
Definition load_u32 (m : Z -> Z) (off : Z) : Z := load_le m off 4.
Definition load_u64 (m : Z -> Z) (off : Z) : Z := load_le m off 8.

(** Six 64-bit limbs, least significant first, at [off]. *)
Definition load_limbs (m : Z -> Z) (off : Z) : list Z :=
  map (fun k => load_u64 m (off + 8 * Z.of_nat k)) (seq 0 6).

Fixpoint store_limbs (m : Z -> Z) (off : Z) (limbs : list Z) : Z -> Z :=
  match limbs with
  | [] => m
  | l :: rest => store_limbs (store_le m off 8 l) (off + 8) rest
  end.

(** The value of a little-endian limb vector. *)
Fixpoint limbs_value (limbs : list Z) : Z :=
  match limbs with
  | [] => 0
  | l :: rest => l + 2 ^ 64 * limbs_value rest
  end.

(** Every limb is a 64-bit value. *)
Definition limbs_ok (limbs : list Z) : Prop :=
  Forall (fun l => 0 <= l < 2 ^ 64) limbs.

(** The [n] bytes of the buffer starting at [off]. *)
Definition memory_range (m : evm_memory) (off n : Z) : list Z :=
  map (fun k => mem_byte m (off + Z.of_nat k) mod 256) (seq 0 (Z.to_nat n)).

(** [intx::as_bytes]: the 32 bytes of a word as they lie in memory on the
    little-endian targets evmone builds for. *)
Definition as_bytes (w : Z) : Z -> Z :=
  fun i => if (0 <=? i) && (i <? 32) then (w / 2 ^ (8 * i)) mod 256 else 0.

(** ** The arithmetic of the 384-bit kernels of [bigint.h]

    [bigint.h] is included by the translated file but is not part of it.
    This is the arithmetic of its kernels on limb vectors; the kernels
    themselves, which the handlers call with pointers into the frame's
    memory, follow with the handlers. *)

(** Limb-wise addition with carry propagation: the sum limbs and the
    carry out of the last limb. *)
Fixpoint add_limbs (x y : list Z) (carry : Z) : list Z * Z :=
  match x, y with
  | xi :: x', yi :: y' =>
      let t := xi + yi + carry in
      let (r, c) := add_limbs x' y' (t / 2 ^ 64) in
      (t mod 2 ^ 64 :: r, c)
  | _, _ => ([], carry)
  end.

(** Limb-wise subtraction with borrow: the difference limbs and the borrow
    out of the last limb. *)
Fixpoint sub_limbs (x y : list Z) (borrow : Z) : list Z * Z :=
  match x, y with
  | xi :: x', yi :: y' =>
      let t := xi - yi - borrow in
      let (r, b) := sub_limbs x' y' (if t <? 0 then 1 else 0) in
      (t mod 2 ^ 64 :: r, b)
  | _, _ => ([], borrow)
  end.

(** Comparison of two limb vectors, the most significant limb deciding. *)
Fixpoint compare_limbs (x y : list Z) : comparison :=
  match x, y with
  | xi :: x', yi :: y' =>
      match compare_limbs x' y' with
      | Eq => xi ?= yi
      | c => c
      end
  | _, _ => Eq
  end.

Definition less_than_or_equal (x y : list Z) : bool :=
  match compare_limbs x y with
  | Gt => false
  | _ => true
  end.

(** Modelled from the spec: the arithmetic of [addmod384_64bitlimbs] of
    [bigint.h], which computes [out = (x + y) mod m] limb-wise with carry
    propagation followed by a conditional subtraction of [m] if the raw sum
    (carry included) is at least [m]. *)
Definition add_then_reduce (x y m : list Z) : list Z :=
  let (sum, carry) := add_limbs x y 0 in
  if negb (carry =? 0) || less_than_or_equal m sum
  then fst (sub_limbs sum m 0)
  else sum.

(** Modelled from the spec: the arithmetic of [subtractmod384_64bitlimbs]
    of [bigint.h], which computes [out = (x - y) mod m] as a limb-wise
    subtraction with borrow, followed by a conditional addition of [m] if
    the result underflowed. *)
Definition subtract_then_correct (x y m : list Z) : list Z :=
  let (diff, borrow) := sub_limbs x y 0 in
  if negb (borrow =? 0)
  then fst (add_limbs diff m 0)
  else diff.

(** Two 48-byte ranges of one buffer, starting at [a] and at [b], that
    share a byte. *)
Definition overlap (a b : Z) : bool := (a <? b + 48) && (b <? a + 48).

Section Model.

Context {HostContext : Type}.

(** ** Execution state *)

(** Modelled from the spec: [execution_state] is declared in a header
    outside the translated files.  The fields are those the handlers and
    [execute] read and write; [host] stands for the host interface and
    everything reachable through it. *)
Record execution_state : Type := {
  gas_left : Z;
  stack : list Z;
  memory : evm_memory;
  current_block_cost : N;
  status : evmc_status_code;
  output_offset : Z;
  output_size : Z;
  analysis : code_analysis;
  msg : evmc_message;
  rev : evmc_revision;
  code : list Z;
  host : HostContext
}.

Definition set_gas_left (g : Z) (s : execution_state) : execution_state :=
  {| gas_left := g; stack := stack s; memory := memory s;
     current_block_cost := current_block_cost s; status := status s;
     output_offset := output_offset s; output_size := output_size s;
     analysis := analysis s; msg := msg s; rev := rev s; code := code s;
     host := host s |}.

Definition set_stack (st : list Z) (s : execution_state) : execution_state :=
  {| gas_left := gas_left s; stack := st; memory := memory s;
     current_block_cost := current_block_cost s; status := status s;
     output_offset := output_offset s; output_size := output_size s;
     analysis := analysis s; msg := msg s; rev := rev s; code := code s;
     host := host s |}.

Definition set_memory (m : evm_memory) (s : execution_state) : execution_state :=
  {| gas_left := gas_left s; stack := stack s; memory := m;
     current_block_cost := current_block_cost s; status := status s;
     output_offset := output_offset s; output_size := output_size s;
     analysis := analysis s; msg := msg s; rev := rev s; code := code s;
     host := host s |}.

Definition set_current_block_cost (c : N) (s : execution_state) : execution_state :=
  {| gas_left := gas_left s; stack := stack s; memory := memory s;
     current_block_cost := c; status := status s;
     output_offset := output_offset s; output_size := output_size s;
     analysis := analysis s; msg := msg s; rev := rev s; code := code s;
     host := host s |}.

Definition set_status (c : evmc_status_code) (s : execution_state) : execution_state :=
  {| gas_left := gas_left s; stack := stack s; memory := memory s;
     current_block_cost := current_block_cost s; status := c;
     output_offset := output_offset s; output_size := output_size s;
     analysis := analysis s; msg := msg s; rev := rev s; code := code s;
     host := host s |}.

Definition set_output_offset (o : Z) (s : execution_state) : execution_state :=
  {| gas_left := gas_left s; stack := stack s; memory := memory s;
     current_block_cost := current_block_cost s; status := status s;
     output_offset := o; output_size := output_size s;
     analysis := analysis s; msg := msg s; rev := rev s; code := code s;
     host := host s |}.

Definition set_output_size (n : Z) (s : execution_state) : execution_state :=
  {| gas_left := gas_left s; stack := stack s; memory := memory s;
     current_block_cost := current_block_cost s; status := status s;
     output_offset := output_offset s; output_size := n;
     analysis := analysis s; msg := msg s; rev := rev s; code := code s;
     host := host s |}.

(** The result of a handler: the next instruction (or null) and the state. *)
Definition continuation : Type := (option nat * execution_state)%type.

(** Modelled from the spec: [execution_state::exit] is declared with the
    state.  A handler halts the frame by recording the status and returning
    the halt sentinel. *)
Definition exit (state : execution_state) (status_code : evmc_status_code) : continuation :=
  (None, set_status status_code state).

(** [*instr] for the pointer [instr] into [state.analysis->instrs]. *)
Definition instr_at (state : execution_state) (instr : nat) : instruction :=
  nth instr (instrs (analysis state)) {| fn := Fn.op_undefined; arg := in_number 0 |}.

(** ** The value stack *)

(** Modelled from the spec: [evm_stack] is declared outside the translated
    files.  The stack is a sequence of words of depth at most 1024
    ([evm_stack::limit]); index 0 is the top. *)
Definition evm_stack_limit : Z := 1024.

Definition stack_size (state : execution_state) : Z := Z.of_nat (length (stack state)).

(** [state.stack[i]]. *)
Definition stack_at (state : execution_state) (i : nat) : Z := nth i (stack state) 0.

(** [state.stack.pop()]: the item and the state without it. *)
Definition stack_pop (state : execution_state) : Z * execution_state :=
  (stack_at state 0, set_stack (tl (stack state)) state).

Definition stack_push (v : Z) (state : execution_state) : execution_state :=
  set_stack (v :: stack state) state.

(** ** What the handlers call in other translation units *)

(** The three shapes of instruction body the [op] template accepts. *)
Inductive instr_impl : Type :=
| on_stack (f : list Z -> list Z)
| on_state (f : execution_state -> execution_state)
| with_status (f : execution_state -> evmc_status_code * execution_state).

Class Collaborators : Type := {
  (** [check_memory(state, offset, size)] *)
  check_memory : execution_state -> Z -> Z -> bool * execution_state;
  (** the body behind each name wrapped by [op<...>] *)
  instr_body : InstrFn.name -> instr_impl;
  sstore : execution_state -> evmc_status_code * execution_state;
  log : execution_state -> Z -> evmc_status_code * execution_state;
  call : evmc_call_kind -> bool -> execution_state -> evmc_status_code * execution_state;
  create : evmc_call_kind -> execution_state -> evmc_status_code * execution_state;
  selfdestruct : execution_state -> evmc_status_code * execution_state;
  (** the two Montgomery multiplications, from limb vectors [x], [y], [m]
      and the inverse to the result limbs *)
  mulx_mont_384 : list Z -> list Z -> list Z -> Z -> list Z;
  montmul384_64bitlimbs : list Z -> list Z -> list Z -> Z -> list Z;
  (** the build's value of the macro [USE_ASM] (1 unless overridden) *)
  USE_ASM : bool;
  (** the buffer that [addmod384_64bitlimbs] and [subtractmod384_64bitlimbs]
      leave when the output range shares bytes with an operand or with the
      modulus, from the buffer and the pointers [out], [x], [y] and [m] *)
  addmod384_overlapping : (Z -> Z) -> Z -> Z -> Z -> Z -> Z -> Z;
  subtractmod384_overlapping : (Z -> Z) -> Z -> Z -> Z -> Z -> Z -> Z
}.

Context {collaborators : Collaborators}.

(** ** Handlers *)

Definition opx_beginblock (instr : nat) (state : execution_state) : continuation :=
  let block := block (arg (instr_at state instr)) in
  let state := set_gas_left (gas_left state - Z.of_N (gas_cost block)) state in
  if gas_left state <? 0 then exit state EVMC_OUT_OF_GAS
  else if stack_size state <? stack_req block then exit state EVMC_STACK_UNDERFLOW
  else if stack_size state + stack_max_growth block >? evm_stack_limit
       then exit state EVMC_STACK_OVERFLOW
  else (Some (S instr), set_current_block_cost (gas_cost block) state).

(** The three overloads of the [op] template, chosen by the type of the
    wrapped body. *)
Definition op (InstrFn : InstrFn.name) (instr : nat) (state : execution_state) : continuation :=
  match instr_body InstrFn with
  | on_stack f => (Some (S instr), set_stack (f (stack state)) state)
  | on_state f => (Some (S instr), f state)
  | with_status f =>
      let (status_code, state) := f state in
      if negb (status_eqb status_code EVMC_SUCCESS) then exit state status_code
      else (Some (S instr), state)
  end.

Definition op_stop (instr : nat) (state : execution_state) : continuation :=
  exit state EVMC_SUCCESS.

Definition op_sstore (instr : nat) (state : execution_state) : continuation :=
  let gas_left_correction :=
    Z.of_N (current_block_cost state) - number (arg (instr_at state instr)) in
  let state := set_gas_left (gas_left state + gas_left_correction) state in
  let (status, state) := sstore state in
  if negb (status_eqb status EVMC_SUCCESS) then exit state status
  else
    let state := set_gas_left (gas_left state - gas_left_correction) state in
    if gas_left state <? 0 then exit state EVMC_OUT_OF_GAS
    else (Some (S instr), state).

(** [std::numeric_limits<int>::max()] *)
Definition int_max : Z := 2147483647.

Definition op_jump (instr : nat) (state : execution_state) : continuation :=
  let (dst, state) := stack_pop state in
  if (int_max <? dst) || (find_jumpdest (analysis state) dst <? 0)
  then exit state EVMC_BAD_JUMP_DESTINATION
  else (Some (Z.to_nat (find_jumpdest (analysis state) dst)), state).

Definition op_jumpi (instr : nat) (state : execution_state) : continuation :=
  let (instr, state) :=
    if negb (stack_at state 1 =? 0) then op_jump instr state
    else (Some (S instr), snd (stack_pop state)) in
  (instr, snd (stack_pop state)).

(** The analysis stores a program counter in [arg.number]; it is not
    negative, so the conversion to a word does not change it. *)
Definition op_pc (instr : nat) (state : execution_state) : continuation :=
  (Some (S instr), stack_push (number (arg (instr_at state instr))) state).

Definition op_gas (instr : nat) (state : execution_state) : continuation :=
  let correction :=
    Z.of_N (current_block_cost state) - number (arg (instr_at state instr)) in
  let gas := (gas_left state + correction) mod 2 ^ 64 in
  (Some (S instr), stack_push gas state).

Definition op_push_small (instr : nat) (state : execution_state) : continuation :=
  (Some (S instr), stack_push (small_push_value (arg (instr_at state instr))) state).

Definition op_push_full (instr : nat) (state : execution_state) : continuation :=
  (Some (S instr), stack_push (push_value (arg (instr_at state instr))) state).

Definition OP_LOG0 : Z := 0xa0.

Definition op_log (LogOp : Z) (instr : nat) (state : execution_state) : continuation :=
  let num_topics := LogOp - OP_LOG0 in
  let (status_code, state) := log state num_topics in
  if negb (status_eqb status_code EVMC_SUCCESS) then exit state status_code
  else (Some (S instr), state).

Definition op_invalid (instr : nat) (state : execution_state) : continuation :=
  exit state EVMC_INVALID_INSTRUCTION.

(** [static_cast<size_t>] of a word on a 64-bit target. *)
Definition to_size_t (w : Z) : Z := w mod 2 ^ 64.

Definition op_return (status_code : evmc_status_code) (instr : nat)
    (state : execution_state) : continuation :=
  let offset := stack_at state 0 in
  let size := stack_at state 1 in
  let (ok, state) := check_memory state offset size in
  if negb ok then exit state EVMC_OUT_OF_GAS
  else
    let state := set_output_size (to_size_t size) state in
    let state :=
      if negb (output_size state =? 0) then set_output_offset (to_size_t offset) state
      else state in
    exit state status_code.

Definition op_call (Kind : evmc_call_kind) (Static : bool) (instr : nat)
    (state : execution_state) : continuation :=
  let gas_left_correction :=
    Z.of_N (current_block_cost state) - number (arg (instr_at state instr)) in
  let state := set_gas_left (gas_left state + gas_left_correction) state in
  let (status, state) := call Kind Static state in
  if negb (status_eqb status EVMC_SUCCESS) then exit state status
  else
    let state := set_gas_left (gas_left state - gas_left_correction) state in
    if gas_left state <? 0 then exit state EVMC_OUT_OF_GAS
    else (Some (S instr), state).

Definition op_create (Kind : evmc_call_kind) (instr : nat)
    (state : execution_state) : continuation :=
  let gas_left_correction :=
    Z.of_N (current_block_cost state) - number (arg (instr_at state instr)) in
  let state := set_gas_left (gas_left state + gas_left_correction) state in
  let (status, state) := create Kind state in
  if negb (status_eqb status EVMC_SUCCESS) then exit state status
  else
    let state := set_gas_left (gas_left state - gas_left_correction) state in
    if gas_left state <? 0 then exit state EVMC_OUT_OF_GAS
    else (Some (S instr), state).

Definition op_undefined (instr : nat) (state : execution_state) : continuation :=
  exit state EVMC_UNDEFINED_INSTRUCTION.

Definition op_selfdestruct (instr : nat) (state : execution_state) : continuation :=
  let (status_code, state) := selfdestruct state in
  exit state status_code.

(** *** The 384-bit instructions *)

(** The state with the contents [bytes] in its buffer, the size kept. *)
Definition set_bytes (bytes : Z -> Z) (state : execution_state) : execution_state :=
  set_memory {| mem_size := mem_size (memory state); mem_byte := bytes |} state.

(** The state with the six limbs [out] written at [out_offset]. *)
Definition write_limbs (out_offset : Z) (out : list Z) (state : execution_state)
    : execution_state :=
  set_memory
    {| mem_size := mem_size (memory state);
       mem_byte := store_limbs (mem_byte (memory state)) out_offset out |}
    state.

(** Modelled from the spec: [addmod384_64bitlimbs] of [bigint.h].  The
    handler passes four pointers into the one buffer of the frame: [out],
    [x], [y] and [m].  The kernel computes [out = (x + y) mod m] by
    [add_then_reduce].  Where the output range shares bytes with an operand
    or with the modulus, what it leaves depends on the order of its reads
    and writes, which the spec does not give: that buffer is
    [addmod384_overlapping]. *)
Definition addmod384_64bitlimbs (mem : Z -> Z) (out x y m : Z) : Z -> Z :=
  if overlap out x || overlap out y || overlap out m
  then addmod384_overlapping mem out x y m
  else store_limbs mem out
         (add_then_reduce (load_limbs mem x) (load_limbs mem y) (load_limbs mem m)).

(** Modelled from the spec: [subtractmod384_64bitlimbs] of [bigint.h],
    called like [addmod384_64bitlimbs].  It computes [out = (x - y) mod m]
    by [subtract_then_correct]; for an output range that shares bytes with
    an operand or with the modulus the buffer it leaves is
    [subtractmod384_overlapping]. *)
Definition subtractmod384_64bitlimbs (mem : Z -> Z) (out x y m : Z) : Z -> Z :=
  if overlap out x || overlap out y || overlap out m
  then subtractmod384_overlapping mem out x y m
  else store_limbs mem out
         (subtract_then_correct (load_limbs mem x) (load_limbs mem y) (load_limbs mem m)).

Definition op_addmod384 (instr : nat) (state : execution_state) : continuation :=
  let (arg, state) := stack_pop state in
  let params := as_bytes arg in
  let out_offset := load_u32 params 12 in
  let x_offset := load_u32 params 8 in
  let y_offset := load_u32 params 4 in
  let mod_offset := load_u32 params 0 in
  let max_memory_index :=
    Z.max (Z.max x_offset y_offset) (Z.max out_offset mod_offset) in
  let (ok, state) := check_memory state max_memory_index 48 in
  if negb ok then (None, state)
  else
    let out := out_offset in
    let x := x_offset in
    let y := y_offset in
    let m := mod_offset in
    (Some (S instr),
     set_bytes (addmod384_64bitlimbs (mem_byte (memory state)) out x y m) state).

Definition op_submod384 (instr : nat) (state : execution_state) : continuation :=
  let params := as_bytes (stack_at state 0) in
  let state := snd (stack_pop state) in
  let out_offset := load_u32 params 12 in
  let x_offset := load_u32 params 8 in
  let y_offset := load_u32 params 4 in
  let mod_offset := load_u32 params 0 in
  let max_memory_index :=
    Z.max (Z.max x_offset y_offset) (Z.max out_offset mod_offset) in
  let (ok, state) := check_memory state max_memory_index 48 in
  if negb ok then (None, state)
  else
    let out := out_offset in
    let x := x_offset in
    let y := y_offset in
    let m := mod_offset in
    (Some (S instr),
     set_bytes (subtractmod384_64bitlimbs (mem_byte (memory state)) out x y m) state).

(** The index expression [mod_offset + 48] is evaluated in [uint32_t]. *)
Definition inv_offset (mod_offset : Z) : Z := (mod_offset + 48) mod 2 ^ 32.

Definition op_mulmodmont384 (instr : nat) (state : execution_state) : continuation :=
  let params := as_bytes (stack_at state 0) in
  let state := snd (stack_pop state) in
  let out_offset := load_u32 params 12 in
  let x_offset := load_u32 params 8 in
  let y_offset := load_u32 params 4 in
  let mod_offset := load_u32 params 0 in
  let max_memory_index :=
    Z.max (Z.max x_offset y_offset) (Z.max out_offset mod_offset) in
  let (ok, state) := check_memory state max_memory_index 56 in
  if negb ok then (None, state)
  else
    let x := load_limbs (mem_byte (memory state)) x_offset in
    let y := load_limbs (mem_byte (memory state)) y_offset in
    let m := load_limbs (mem_byte (memory state)) mod_offset in
    let inv := load_u64 (mem_byte (memory state)) (inv_offset mod_offset) in
    let out := if USE_ASM then mulx_mont_384 x y m inv
               else montmul384_64bitlimbs x y m inv in
    (Some (S instr), write_limbs out_offset out state).

(** ** The execution loop *)

(** [instr->fn(instr, *state)] *)
Definition invoke (f : instruction_exec_fn) (instr : nat) (state : execution_state)
    : continuation :=
  match f with
  | Fn.op InstrFn => op InstrFn instr state
  | Fn.op_stop => op_stop instr state
  | Fn.op_sstore => op_sstore instr state
  | Fn.op_jump => op_jump instr state
  | Fn.op_jumpi => op_jumpi instr state
  | Fn.op_pc => op_pc instr state
  | Fn.op_gas => op_gas instr state
  | Fn.op_push_small => op_push_small instr state
  | Fn.op_push_full => op_push_full instr state
  | Fn.op_log LogOp => op_log LogOp instr state
  | Fn.op_invalid => op_invalid instr state
  | Fn.op_return status_code => op_return status_code instr state
  | Fn.op_call Kind Static => op_call Kind Static instr state
  | Fn.op_create Kind => op_create Kind instr state
  | Fn.op_undefined => op_undefined instr state
  | Fn.op_selfdestruct => op_selfdestruct instr state
  | Fn.opx_beginblock => opx_beginblock instr state
  | Fn.op_addmod384 => op_addmod384 instr state
  | Fn.op_submod384 => op_submod384 instr state
  | Fn.op_mulmodmont384 => op_mulmodmont384 instr state
  end.

(** [while (instr != nullptr) instr = instr->fn(instr, *state);] with a
    bound on the number of iterations.  [None] means that the bound was
    reached, or that the pointer left the instruction array (where the
    program has no defined behaviour). *)
Fixpoint run (fuel : nat) (instr : option nat) (state : execution_state)
    : option execution_state :=
  match instr with
  | None => Some state
  | Some p =>
      match fuel with
      | O => None
      | S fuel' =>
          match nth_error (instrs (analysis state)) p with
          | None => None
          | Some i =>
              let (next, state') := invoke (fn i) p state in
              run fuel' next state'
          end
      end
  end.

Record evmc_result : Type := {
  status_code : evmc_status_code;
  result_gas_left : Z;
  output_data : list Z
}.

(** [evmc::make_result]: the output bytes are copied out of the buffer. *)
Definition make_result (status_code : evmc_status_code) (gas_left : Z)
    (m : evm_memory) (output_offset output_size : Z) : evmc_result :=
  {| status_code := status_code;
     result_gas_left := gas_left;
     output_data := memory_range m output_offset output_size |}.

(** The frame [execute] starts from: the value-initialised state [fresh]
    with the fields that [execute] assigns. *)
Definition initial_state (fresh : execution_state) (host : HostContext)
    (rev : evmc_revision) (msg : evmc_message) (analysis : code_analysis)
    (code : list Z) : execution_state :=
  {| gas_left := gas msg; stack := stack fresh; memory := memory fresh;
     current_block_cost := current_block_cost fresh; status := status fresh;
     output_offset := output_offset fresh; output_size := output_size fresh;
     analysis := analysis; msg := msg; rev := rev; code := code;
     host := host |}.

(** The frame at the end of the loop of [execute]. *)
Definition final_state (fuel : nat) (fresh : execution_state) (host : HostContext)
    (rev : evmc_revision) (msg : evmc_message) (analysis : code_analysis)
    (code : list Z) : option execution_state :=
  run fuel (Some 0%nat) (initial_state fresh host rev msg analysis code).

(** [execute].  The analysis of the code ([analyze], outside the translated
    files) is passed in, as is the value-initialised [execution_state]. *)
Definition execute (fuel : nat) (fresh : execution_state) (host : HostContext)
    (rev : evmc_revision) (msg : evmc_message) (analysis : code_analysis)
    (code : list Z) : option evmc_result :=
  match final_state fuel fresh host rev msg analysis code with
  | None => None
  | Some state =>
      let gas_left :=
        if status_eqb (status state) EVMC_SUCCESS || status_eqb (status state) EVMC_REVERT
        then gas_left state else 0 in
      Some (make_result (status state) gas_left (memory state)
              (output_offset state) (output_size state))
  end.

End Model.

(** ** The opcode tables *)

(** Opcode numbers ([evmc/instructions.h]); [OP_LOG0] is defined above. *)
Definition OP_STOP : Z := 0x00.
Definition OP_ADD : Z := 0x01.
Definition OP_MUL : Z := 0x02.
Definition OP_SUB : Z := 0x03.
Definition OP_DIV : Z := 0x04.
Definition OP_SDIV : Z := 0x05.
Definition OP_MOD : Z := 0x06.
Definition OP_SMOD : Z := 0x07.
Definition OP_ADDMOD : Z := 0x08.
Definition OP_MULMOD : Z := 0x09.
Definition OP_EXP : Z := 0x0a.
Definition OP_SIGNEXTEND : Z := 0x0b.
Definition OP_LT : Z := 0x10.
Definition OP_GT : Z := 0x11.
Definition OP_SLT : Z := 0x12.
Definition OP_SGT : Z := 0x13.
Definition OP_EQ : Z := 0x14.
Definition OP_ISZERO : Z := 0x15.
Definition OP_AND : Z := 0x16.
Definition OP_OR : Z := 0x17.
Definition OP_XOR : Z := 0x18.
Definition OP_NOT : Z := 0x19.
Definition OP_BYTE : Z := 0x1a.
Definition OP_SHL : Z := 0x1b.
Definition OP_SHR : Z := 0x1c.
Definition OP_SAR : Z := 0x1d.
Definition OP_SHA3 : Z := 0x20.
Definition OP_ADDRESS : Z := 0x30.
Definition OP_BALANCE : Z := 0x31.
Definition OP_ORIGIN : Z := 0x32.
Definition OP_CALLER : Z := 0x33.
Definition OP_CALLVALUE : Z := 0x34.
Definition OP_CALLDATALOAD : Z := 0x35.
Definition OP_CALLDATASIZE : Z := 0x36.
Definition OP_CALLDATACOPY : Z := 0x37.
Definition OP_CODESIZE : Z := 0x38.
Definition OP_CODECOPY : Z := 0x39.
Definition OP_GASPRICE : Z := 0x3a.
Definition OP_EXTCODESIZE : Z := 0x3b.
Definition OP_EXTCODECOPY : Z := 0x3c.
Definition OP_RETURNDATASIZE : Z := 0x3d.
Definition OP_RETURNDATACOPY : Z := 0x3e.
Definition OP_EXTCODEHASH : Z := 0x3f.
Definition OP_BLOCKHASH : Z := 0x40.
Definition OP_COINBASE : Z := 0x41.
Definition OP_TIMESTAMP : Z := 0x42.
Definition OP_NUMBER : Z := 0x43.
Definition OP_DIFFICULTY : Z := 0x44.
Definition OP_GASLIMIT : Z := 0x45.
Definition OP_CHAINID : Z := 0x46.
Definition OP_SELFBALANCE : Z := 0x47.
Definition OP_POP : Z := 0x50.
Definition OP_MLOAD : Z := 0x51.
Definition OP_MSTORE : Z := 0x52.
Definition OP_MSTORE8 : Z := 0x53.
Definition OP_SLOAD : Z := 0x54.
Definition OP_SSTORE : Z := 0x55.
Definition OP_JUMP : Z := 0x56.
Definition OP_JUMPI : Z := 0x57.
Definition OP_PC : Z := 0x58.
Definition OP_MSIZE : Z := 0x59.
Definition OP_GAS : Z := 0x5a.
Definition OP_JUMPDEST : Z := 0x5b.
Definition OP_PUSH1 : Z := 0x60.
Definition OP_PUSH8 : Z := 0x67.
Definition OP_PUSH9 : Z := 0x68.
Definition OP_PUSH32 : Z := 0x7f.
Definition OP_DUP1 : Z := 0x80.
Definition OP_SWAP1 : Z := 0x90.
Definition OP_LOG1 : Z := 0xa1.
Definition OP_LOG2 : Z := 0xa2.
Definition OP_LOG3 : Z := 0xa3.
Definition OP_LOG4 : Z := 0xa4.
Definition OP_CREATE : Z := 0xf0.
Definition OP_CALL : Z := 0xf1.
Definition OP_CALLCODE : Z := 0xf2.
Definition OP_RETURN : Z := 0xf3.
Definition OP_DELEGATECALL : Z := 0xf4.
Definition OP_CREATE2 : Z := 0xf5.
Definition OP_STATICCALL : Z := 0xfa.
Definition OP_REVERT : Z := 0xfd.
Definition OP_INVALID : Z := 0xfe.
Definition OP_SELFDESTRUCT : Z := 0xff.

(** [OPX_BEGINBLOCK] is declared with the analysis; it reuses the number
    of JUMPDEST. *)
Definition OPX_BEGINBLOCK : Z := OP_JUMPDEST.

(** [OP_DUP1 .. OP_DUP16] and [OP_SWAP1 .. OP_SWAP16] are consecutive. *)
Definition OP_DUP (n : Z) : Z := OP_DUP1 + (n - 1).
Definition OP_SWAP (n : Z) : Z := OP_SWAP1 + (n - 1).

(** An array of handler pointers, value-initialised to null, and the
    assignment [table[i] = f]. *)
Definition fn_table : Type := Z -> option instruction_exec_fn.

Definition null_table : fn_table := fun _ => None.

Definition assign (table : fn_table) (entry : Z * instruction_exec_fn) : fn_table :=
  fun i => if i =? fst entry then Some (snd entry) else table i.

(** [for (op = first; op <= last; ++op) table[op] = f] *)
Definition assign_range (first last : Z) (f : instruction_exec_fn) : list (Z * instruction_exec_fn) :=
  map (fun k => (first + Z.of_nat k, f)) (seq 0 (Z.to_nat (last - first + 1))).

(** The assignments of [instruction_implementations], in source order. *)
Definition implementation_assignments : list (Z * instruction_exec_fn) :=
  [ (OP_STOP, Fn.op_stop);
    (OP_ADD, Fn.op InstrFn.add);
    (OP_MUL, Fn.op InstrFn.mul);
    (OP_SUB, Fn.op InstrFn.sub);
    (OP_DIV, Fn.op InstrFn.div);
    (OP_SDIV, Fn.op InstrFn.sdiv);
    (OP_MOD, Fn.op InstrFn.mod_);
    (OP_SMOD, Fn.op InstrFn.smod);
    (OP_ADDMOD, Fn.op InstrFn.addmod);
    (OP_MULMOD, Fn.op InstrFn.mulmod);
    (OP_EXP, Fn.op InstrFn.exp);
    (OP_SIGNEXTEND, Fn.op InstrFn.signextend);
    (OP_LT, Fn.op InstrFn.lt);
    (OP_GT, Fn.op InstrFn.gt);
    (OP_SLT, Fn.op InstrFn.slt);
    (OP_SGT, Fn.op InstrFn.sgt);
    (OP_EQ, Fn.op InstrFn.eq);
    (OP_ISZERO, Fn.op InstrFn.iszero);
    (OP_AND, Fn.op InstrFn.and_);
    (OP_OR, Fn.op InstrFn.or_);
    (OP_XOR, Fn.op InstrFn.xor_);
    (OP_NOT, Fn.op InstrFn.not_);
    (OP_BYTE, Fn.op InstrFn.byte);
    (OP_SHA3, Fn.op InstrFn.sha3);
    (OP_ADDRESS, Fn.op InstrFn.address);
    (OP_BALANCE, Fn.op InstrFn.balance);
    (OP_ORIGIN, Fn.op InstrFn.origin);
    (OP_CALLER, Fn.op InstrFn.caller);
    (OP_CALLVALUE, Fn.op InstrFn.callvalue);
    (OP_CALLDATALOAD, Fn.op InstrFn.calldataload);
    (OP_CALLDATASIZE, Fn.op InstrFn.calldatasize);
    (OP_CALLDATACOPY, Fn.op InstrFn.calldatacopy);
    (OP_CODESIZE, Fn.op InstrFn.codesize);
    (OP_CODECOPY, Fn.op InstrFn.codecopy);
    (OP_GASPRICE, Fn.op InstrFn.gasprice);
    (OP_EXTCODESIZE, Fn.op InstrFn.extcodesize);
    (OP_EXTCODECOPY, Fn.op InstrFn.extcodecopy);
    (OP_RETURNDATASIZE, Fn.op InstrFn.returndatasize);
    (OP_RETURNDATACOPY, Fn.op InstrFn.returndatacopy);
    (OP_BLOCKHASH, Fn.op InstrFn.blockhash);
    (OP_COINBASE, Fn.op InstrFn.coinbase);
    (OP_TIMESTAMP, Fn.op InstrFn.timestamp);
    (OP_NUMBER, Fn.op InstrFn.number);
    (OP_DIFFICULTY, Fn.op InstrFn.difficulty);
    (OP_GASLIMIT, Fn.op InstrFn.gaslimit);
    (OP_POP, Fn.op InstrFn.pop);
    (OP_MLOAD, Fn.op InstrFn.mload);
    (OP_MSTORE, Fn.op InstrFn.mstore);
    (OP_MSTORE8, Fn.op InstrFn.mstore8);
    (OP_SLOAD, Fn.op InstrFn.sload);
    (OP_SSTORE, Fn.op_sstore);
    (OP_JUMP, Fn.op_jump);
    (OP_JUMPI, Fn.op_jumpi);
    (OP_PC, Fn.op_pc);
    (OP_MSIZE, Fn.op InstrFn.msize);
    (OP_GAS, Fn.op_gas);
    (OPX_BEGINBLOCK, Fn.opx_beginblock) ]
  ++ assign_range OP_PUSH1 OP_PUSH8 Fn.op_push_small
  ++ assign_range OP_PUSH9 OP_PUSH32 Fn.op_push_full
  ++ map (fun n => (OP_DUP n, Fn.op (InstrFn.dup (OP_DUP n))))
       [1; 2; 3; 4; 5; 6; 7; 8; 9; 10; 11; 12; 13; 14; 15; 16]
  ++ map (fun n => (OP_SWAP n, Fn.op (InstrFn.swap (OP_SWAP n))))
       [1; 2; 3; 4; 5; 6; 7; 8; 9; 10; 11; 12; 13; 14; 15; 16]
  ++ [ (OP_LOG0, Fn.op_log OP_LOG0);
       (OP_LOG1, Fn.op_log OP_LOG1);
       (OP_LOG2, Fn.op_log OP_LOG2);
       (OP_LOG3, Fn.op_log OP_LOG3);
       (OP_LOG4, Fn.op_log OP_LOG4);
       (OP_CREATE, Fn.op_create EVMC_CREATE);
       (OP_CALL, Fn.op_call EVMC_CALL false);
       (OP_CALLCODE, Fn.op_call EVMC_CALLCODE false);
       (OP_RETURN, Fn.op_return EVMC_SUCCESS);
       (OP_DELEGATECALL, Fn.op_call EVMC_DELEGATECALL false);
       (OP_STATICCALL, Fn.op_call EVMC_CALL true);
       (OP_REVERT, Fn.op_return EVMC_REVERT);
       (OP_INVALID, Fn.op_invalid);
       (OP_SELFDESTRUCT, Fn.op_selfdestruct);
       (OP_SHL, Fn.op InstrFn.shl);
       (OP_SHR, Fn.op InstrFn.shr);
       (OP_SAR, Fn.op InstrFn.sar);
       (OP_EXTCODEHASH, Fn.op InstrFn.extcodehash);
       (OP_CREATE2, Fn.op_create EVMC_CREATE2);
       (OP_CHAINID, Fn.op InstrFn.chainid);
       (OP_EXTCODEHASH, Fn.op InstrFn.extcodehash);
       (OP_SELFBALANCE, Fn.op InstrFn.selfbalance) ].

Definition instruction_implementations : fn_table :=
  fold_left assign implementation_assignments null_table.

Module OpTableEntry.
Record t : Type := {
  fn : option instruction_exec_fn;
  gas_cost : Z;
  stack_req : Z;
  stack_change : Z
}.
End OpTableEntry.

Definition op_table : Type := Z -> OpTableEntry.t.

Section Tables.

(** [instr::undefined], [instr::gas_costs<Rev>] and [instr::traits] come
    from [instruction_traits.hpp]; the traits are a pair (stack height
    required, stack height change). *)
Variable undefined : Z.
Variable gas_costs : evmc_revision -> Z -> Z.
Variable traits : Z -> Z * Z.

Definition create_op_table (Rev : evmc_revision) : op_table :=
  fun i =>
    let gas_cost := gas_costs Rev i in
    if gas_cost =? undefined
    then {| OpTableEntry.fn := Some Fn.op_undefined;
            OpTableEntry.gas_cost := 0;
            OpTableEntry.stack_req := 0;
            OpTableEntry.stack_change := 0 |}
    else {| OpTableEntry.fn := instruction_implementations i;
            OpTableEntry.gas_cost := gas_cost;
            OpTableEntry.stack_req := fst (traits i);
            OpTableEntry.stack_change := snd (traits i) |}.

Definition op_tables : evmc_revision -> op_table := create_op_table.

Definition get_op_table (rev : evmc_revision) : op_table := op_tables rev.

End Tables.

(** ** A reference environment

    Concrete collaborators on which the statements below are exercised.
    Modelled from the spec: memory starts empty and grows on demand in
    32-byte-aligned increments up to an implementation limit; growth and
    its charging belong to a collaborator, so nothing is charged here.  The
    host operations charge a fixed cost and fail when it cannot be paid. *)

Section Reference.

Context {HostContext : Type}.

(** Modelled from the spec: a buffer grown to [new_size] keeps its bytes
    and reads as zero from its old size on. *)
Definition grown (m : evm_memory) (new_size : Z) : evm_memory :=
  {| mem_size := new_size;
     mem_byte := fun i => if i <? mem_size m then mem_byte m i else 0 |}.

(** Modelled from the spec: the bounds-check primitive extends memory in
    32-byte-aligned steps when the range ends past the current size, and
    fails when growth is not allowed (here: past [limit]). *)
Definition reference_check_memory (limit : Z) (state : @execution_state HostContext)
    (offset size : Z) : bool * @execution_state HostContext :=
  let new_size := offset + size in
  if new_size <=? mem_size (memory state) then (true, state)
  else if new_size <=? limit
  then (true, set_memory (grown (memory state) (32 * ((new_size + 31) / 32))) state)
  else (false, state).

Definition reference_charge (cost : Z) (state : @execution_state HostContext)
    : evmc_status_code * @execution_state HostContext :=
  let state := set_gas_left (gas_left state - cost) state in
  if gas_left state <? 0 then (EVMC_OUT_OF_GAS, state) else (EVMC_SUCCESS, state).

(** A stand-in for the multiplication kernel that hands back the inverse
    it was given, to observe which memory cell the handler read. *)
Definition inverse_probe (x y m : list Z) (inv : Z) : list Z :=
  [inv; 0; 0; 0; 0; 0].

Definition reference_collaborators (limit : Z) : @Collaborators HostContext :=
  {| check_memory := reference_check_memory limit;
     instr_body := fun _ => on_stack (fun st => st);
     sstore := reference_charge 5000;
     log := fun state _ => reference_charge 375 state;
     call := fun _ _ => reference_charge 700;
     create := fun _ => reference_charge 32000;
     selfdestruct := reference_charge 0;
     mulx_mont_384 := inverse_probe;
     montmul384_64bitlimbs := inverse_probe;
     USE_ASM := true;
     addmod384_overlapping := fun mem _ _ _ _ => mem;
     subtractmod384_overlapping := fun mem _ _ _ _ => mem |}.

(** The value-initialised frame of [std::make_unique<execution_state>()]:
    the scalars are zero, the stack and the memory are empty, and the status
    is the enumerator with value 0, [EVMC_SUCCESS]. *)
Definition reference_fresh (h : HostContext) : @execution_state HostContext :=
  {| gas_left := 0; stack := []; memory := empty_memory;
     current_block_cost := 0%N; status := EVMC_SUCCESS;
     output_offset := 0; output_size := 0;
     analysis := {| instrs := []; jumpdest_lookup := fun _ => -1 |};
     msg := {| gas := 0 |}; rev := EVMC_BERLIN; code := [];
     host := h |}.

End Reference.

(** * Specifications

    The predicates in which the properties below are stated. *)

Section Statements.

Context {HostContext : Type}.
Context {collaborators : @Collaborators HostContext}.

Local Abbreviation execution_state := (@execution_state HostContext).

(** ** The 384-bit instructions: operand decoding *)

(** The four 32-bit fields the handlers read from the bytes of the popped
    word, and the index they pass to [check_memory]. *)
Definition out_offset_of (w : Z) : Z := load_u32 (as_bytes w) 12.
Definition x_offset_of (w : Z) : Z := load_u32 (as_bytes w) 8.
Definition y_offset_of (w : Z) : Z := load_u32 (as_bytes w) 4.
Definition mod_offset_of (w : Z) : Z := load_u32 (as_bytes w) 0.

Definition max_memory_index_of (w : Z) : Z :=
  Z.max (Z.max (x_offset_of w) (y_offset_of w)) (Z.max (out_offset_of w) (mod_offset_of w)).

(** The stack word that packs four offsets, the modulus offset lowest. *)
Definition packed_offsets (out_offset x_offset y_offset mod_offset : Z) : Z :=
  mod_offset + 2 ^ 32 * y_offset + 2 ^ 64 * x_offset + 2 ^ 96 * out_offset.

(** The three handlers with the size each passes to [check_memory]. *)
Definition bigint_handlers : list (instruction_exec_fn * Z) :=
  [(Fn.op_addmod384, 48); (Fn.op_submod384, 48); (Fn.op_mulmodmont384, 56)].

(** ** Dynamic-cost instructions *)

(** The correction pattern of a handler built around an [operation]: add the
    correction, run the operation, halt with its status if that is not
    success, else take the correction back and halt with OutOfGas exactly
    when the gas left is then negative. *)
Definition follows_correction_pattern
    (handler : nat -> execution_state -> continuation)
    (operation : execution_state -> evmc_status_code * execution_state) : Prop :=
  forall (instr : nat) (state : execution_state),
    let gas_left_correction :=
      Z.of_N (current_block_cost state) - number (arg (instr_at state instr)) in
    let credited := set_gas_left (gas_left state + gas_left_correction) state in
    let outcome := fst (operation credited) in
    let after := snd (operation credited) in
    let debited := set_gas_left (gas_left after - gas_left_correction) after in
    (outcome <> EVMC_SUCCESS ->
       handler instr state = (None, set_status outcome after)) /\
    (outcome = EVMC_SUCCESS -> gas_left after - gas_left_correction < 0 ->
       handler instr state = (None, set_status EVMC_OUT_OF_GAS debited)) /\
    (outcome = EVMC_SUCCESS -> 0 <= gas_left after - gas_left_correction ->
       handler instr state = (Some (S instr), debited)).

(** The operation a dynamic-cost handler is built around. *)
Definition underlying_operation (f : instruction_exec_fn)
    : option (execution_state -> evmc_status_code * execution_state) :=
  match f with
  | Fn.op_sstore => Some sstore
  | Fn.op_call Kind Static => Some (call Kind Static)
  | Fn.op_create Kind => Some (create Kind)
  | _ => None
  end.

Definition dynamic_cost_opcodes : list Z :=
  [OP_SSTORE; OP_CALL; OP_CALLCODE; OP_DELEGATECALL; OP_STATICCALL; OP_CREATE; OP_CREATE2].

(** ** Statements as the specification words them *)

(** Two 48-byte ranges that share no byte. *)
Definition apart (a b : Z) : Prop := a + 48 <= b \/ b + 48 <= a.

(** The output range of a 384-bit instruction shares no byte with the
    ranges of its operands and of the modulus. *)
Definition output_apart (w : Z) : Prop :=
  apart (out_offset_of w) (x_offset_of w) /\
  apart (out_offset_of w) (y_offset_of w) /\
  apart (out_offset_of w) (mod_offset_of w).

(** C5 as it is worded: whatever the operands, the output holds
    [(x + y) mod m]. *)
Definition addmod384_as_claimed : Prop :=
  forall (state checked : execution_state) (instr : nat) (w : Z) (rest : list Z),
    stack state = w :: rest ->
    check_memory (set_stack rest state) (max_memory_index_of w) 48 = (true, checked) ->
    let mem := mem_byte (memory checked) in
    let x := load_le mem (x_offset_of w) 48 in
    let y := load_le mem (y_offset_of w) 48 in
    let m := load_le mem (mod_offset_of w) 48 in
    load_le (mem_byte (memory (snd (op_addmod384 instr state)))) (out_offset_of w) 48
    = (x + y) mod m.

(** C8 as it is worded: the two words are popped; a failed bounds check
    halts the frame with OutOfGas; otherwise the frame halts with the
    handler's status and the bytes of the range (offset, size) are its
    output.  Offset and size are taken to fit a [size_t], as those of a
    range inside a buffer do. *)
Definition return_as_claimed : Prop :=
  forall (status_code : evmc_status_code) (state : execution_state) (instr : nat)
         (offset size : Z) (below : list Z),
    stack state = offset :: size :: below ->
    0 <= size < 2 ^ 64 -> 0 <= offset < 2 ^ 64 ->
    let ok := fst (check_memory state offset size) in
    let checked := snd (check_memory state offset size) in
    let final := snd (op_return status_code instr state) in
    fst (op_return status_code instr state) = None /\
    stack final = below /\
    (ok = false -> status final = EVMC_OUT_OF_GAS) /\
    (ok = true ->
       status final = status_code /\
       memory_range (memory final) (output_offset final) (output_size final)
       = memory_range (memory checked) offset size).

(** ** Gas accounting *)

(** What the frame needs from its collaborators where it takes over their
    status.  Revert is the status of REVERT alone: no operation that
    reports a status reports it.  SELFDESTRUCT halts with the status of the
    host's operation, whatever it is: when that is Success or Revert the
    operation has neither overdrawn nor added gas. *)
Record halt_contracts : Prop := {
  with_status_halts :
    forall name f s, instr_body name = with_status f -> fst (f s) <> EVMC_REVERT;
  log_halts : forall s n, fst (log s n) <> EVMC_REVERT;
  sstore_halts : forall s, fst (sstore s) <> EVMC_REVERT;
  call_halts : forall Kind Static s, fst (call Kind Static s) <> EVMC_REVERT;
  create_halts : forall Kind s, fst (create Kind s) <> EVMC_REVERT;
  selfdestruct_halts :
    forall s,
      fst (selfdestruct s) = EVMC_SUCCESS \/ fst (selfdestruct s) = EVMC_REVERT ->
      0 <= gas_left s ->
      0 <= gas_left (snd (selfdestruct s)) <= gas_left s
}.

(** What holds of a halted frame: with a status for which [execute]
    reports the gas, the gas is within the budget. *)
Definition settled (limit : Z) (s : execution_state) : Prop :=
  status s = EVMC_SUCCESS \/ status s = EVMC_REVERT -> 0 <= gas_left s <= limit.

(** The handlers that end the frame only through [exit]: all but the
    three 384-bit ones, which return null after a failed bounds check. *)
Definition halts_through_exit (f : instruction_exec_fn) : bool :=
  match f with
  | Fn.op_addmod384 | Fn.op_submod384 | Fn.op_mulmodmont384 => false
  | _ => true
  end.

(** A stream as the analysis builds it: every handler is the one that the
    table of the revision holds for some opcode. *)
Definition from_op_table (table : op_table) (a : code_analysis) : Prop :=
  forall i, In i (instrs a) ->
    exists opcode, OpTableEntry.fn (table opcode) = Some (fn i).

End Statements.

(** ** Sample frames *)

(** A small stream: a block that pushes a destination and jumps to the
    block at program counter 3, which stops; a 384-bit instruction follows,
    for the statements about the handlers of that family. *)
Definition sample_analysis : code_analysis :=
  {| instrs :=
       [ {| fn := Fn.opx_beginblock;
            arg := in_block {| gas_cost := 11; stack_req := 0; stack_max_growth := 1 |} |};
         {| fn := Fn.op_push_small; arg := in_small_push_value 3 |};
         {| fn := Fn.op_jump; arg := in_number 0 |};
         {| fn := Fn.opx_beginblock;
            arg := in_block {| gas_cost := 1; stack_req := 0; stack_max_growth := 0 |} |};
         {| fn := Fn.op_stop; arg := in_number 0 |};
         {| fn := Fn.op_addmod384; arg := in_number 0 |} ];
     jumpdest_lookup := fun pc => if pc =? 3 then 3 else -1 |}.

(** The stream of [sample_analysis] as the analysis builds one: without
    the 384-bit instruction, which no op table holds. *)
Definition dispatched_analysis : code_analysis :=
  {| instrs := firstn 5 (instrs sample_analysis);
     jumpdest_lookup := jumpdest_lookup sample_analysis |}.

(** A frame over [sample_analysis] with the given gas, stack and memory;
    no handler has halted it, so that its status is still the initial
    one. *)
Definition sample_state (g : Z) (st : list Z) (m : evm_memory) : @execution_state unit :=
  {| gas_left := g; stack := st; memory := m;
     current_block_cost := 0%N; status := EVMC_SUCCESS;
     output_offset := 0; output_size := 0;
     analysis := sample_analysis;
     msg := {| gas := g |}; rev := EVMC_BERLIN; code := [];
     host := tt |}.

(** A buffer of 224 bytes holding a modulus at 0, [x] at 64 and [y] at
    112, each below 256, and zeros elsewhere. *)
Definition sample_memory (m x y : Z) : evm_memory :=
  {| mem_size := 224;
     mem_byte := fun i => if i =? 0 then m else if i =? 64 then x
                          else if i =? 112 then y else 0 |}.

(** * Further specifications *)

(** ** Opcodes with a handler *)

(** The opcodes to which [instruction_implementations] assigns a handler. *)
Definition implemented (opcode : Z) : bool :=
  ((OP_STOP <=? opcode) && (opcode <=? OP_SIGNEXTEND))
  || ((OP_LT <=? opcode) && (opcode <=? OP_SAR))
  || (opcode =? OP_SHA3)
  || ((OP_ADDRESS <=? opcode) && (opcode <=? OP_SELFBALANCE))
  || ((OP_POP <=? opcode) && (opcode <=? OP_JUMPDEST))
  || ((OP_PUSH1 <=? opcode) && (opcode <=? OP_LOG4))
  || ((OP_CREATE <=? opcode) && (opcode <=? OP_CREATE2))
  || (opcode =? OP_STATICCALL)
  || ((OP_REVERT <=? opcode) && (opcode <=? OP_SELFDESTRUCT)).

(** The opcodes [first], [first + 1], ..., [first + n - 1]. *)
Definition opcode_range (first : Z) (n : nat) : list Z :=
  map (fun k => first + Z.of_nat k) (seq 0 n).

(** ** The debugging printers

    [print_bytes384] and [print_bytes256] of [instructions.cpp] and the two
    functions of [bigint-util.h] write to [std::cout].  The stream is the
    text written so far together with the formatting state the functions
    set: the number base, the fill character and the pending field width.
    The other formatting flags are taken to be the stream's defaults
    (right adjustment, lower-case digits, no base prefix). *)

Inductive basefield : Type := dec | hex.

Record ostream : Type := {
  written : list ascii;
  base : basefield;
  fill : ascii;
  width : nat
}.

Definition set_base (b : basefield) (os : ostream) : ostream :=
  {| written := written os; base := b; fill := fill os; width := width os |}.

(** [std::setw] *)
Definition setw (n : nat) (os : ostream) : ostream :=
  {| written := written os; base := base os; fill := fill os; width := n |}.

(** [std::setfill] *)
Definition setfill (c : ascii) (os : ostream) : ostream :=
  {| written := written os; base := base os; fill := c; width := width os |}.

Definition radix (b : basefield) : Z :=
  match b with dec => 10 | hex => 16 end.

(** The character of a digit below 16. *)
Definition digit (d : Z) : ascii :=
  nth (Z.to_nat d)
    ["0"; "1"; "2"; "3"; "4"; "5"; "6"; "7"; "8"; "9"; "a"; "b"; "c"; "d"; "e"; "f"]%char
    "0"%char.

(** The digits of a non-negative number, most significant first and
    without leading zeros; 64 digits are enough for a 64-bit value in any
    base. *)
Fixpoint digits_of (fuel : nat) (b n : Z) : list ascii :=
  match fuel with
  | O => []
  | S fuel' =>
      if n <? b then [digit n]
      else digits_of fuel' b (n / b) ++ [digit (n mod b)]
  end.

(** [os << n] for an unsigned (or non-negative signed) integer: the digits
    in the stream's base, filled on the left up to the field width, which
    is then reset. *)
Definition insert_integer (n : Z) (os : ostream) : ostream :=
  let digits := digits_of 64 (radix (base os)) n in
  {| written := written os ++ repeat (fill os) (width os - length digits) ++ digits;
     base := base os; fill := fill os; width := 0 |}.

(** [os << std::endl] *)
Definition endl (os : ostream) : ostream :=
  {| written := written os ++ ["010"%char];
     base := base os; fill := fill os; width := width os |}.

(** [std::cout] before anything was written or set. *)
Definition cout : ostream :=
  {| written := []; base := dec; fill := " "%char; width := 0 |}.

(** [print_padded_hex_le] of [bigint-util.h] *)
Definition print_padded_hex_le (num : Z) (os : ostream) : ostream :=
  insert_integer num (setfill "0"%char (setw 16 (set_base hex os))).

(** The loop of [print_number] from index [i] down to 0. *)
Fixpoint print_limbs_from (limbs : Z -> Z) (i : nat) (os : ostream) : ostream :=
  let os := print_padded_hex_le (limbs (Z.of_nat i)) os in
  match i with
  | O => os
  | S i' => print_limbs_from limbs i' os
  end.

(** [print_number(limbs, num_limbs)]: the index starts at
    [num_limbs - 1], computed in [size_t]; [limbs] is what the pointer
    addresses.  With no limbs the start index is outside every array and
    the program has no defined behaviour; the properties below are about
    at least one limb. *)
Definition print_number (limbs : Z -> Z) (num_limbs : Z) (os : ostream) : ostream :=
  print_limbs_from limbs (Z.to_nat ((num_limbs - 1) mod 2 ^ 64)) os.

(** The loop of [print_bytes384] and [print_bytes256] over the indices
    [i], [i + 1], ..., [i + n - 1]. *)
Fixpoint print_bytes_loop (bytes : Z -> Z) (i : Z) (n : nat) (os : ostream) : ostream :=
  match n with
  | O => os
  | S n' =>
      print_bytes_loop bytes (i + 1) n'
        (insert_integer (bytes i) (setfill "0"%char (setw 2 os)))
  end.

Definition print_bytes384 (bytes : Z -> Z) (os : ostream) : ostream :=
  endl (set_base dec (print_bytes_loop bytes 0 48 (set_base hex os))).

Definition print_bytes256 (bytes : Z -> Z) (os : ostream) : ostream :=
  endl (set_base dec (print_bytes_loop bytes 0 32 (set_base hex os))).

(** Reading a text of hexadecimal digits back as a number. *)
Definition digit_value (c : ascii) : Z :=
  let n := Z.of_nat (nat_of_ascii c) in
  if (48 <=? n) && (n <=? 57) then n - 48
  else if (97 <=? n) && (n <=? 102) then n - 87
  else 0.

Definition hex_value (text : list ascii) : Z :=
  fold_left (fun acc c => 16 * acc + digit_value c) text 0.

(** The number a sequence of bytes denotes, the first byte being the most
    significant. *)
Definition big_endian_value (bytes : list Z) : Z :=
  fold_left (fun acc b => 256 * acc + b) bytes 0.

(** The cells [f 0], ..., [f (n - 1)]. *)
Definition cells (f : Z -> Z) (n : nat) : list Z :=
  map (fun k => f (Z.of_nat k)) (seq 0 n).

Section FurtherStatements.

Context {HostContext : Type}.
Context {collaborators : @Collaborators HostContext}.

Local Abbreviation execution_state := (@execution_state HostContext).

(** ** Gas seen inside a block *)

(** What a dynamic-cost [handler] at [j] does in the state [entered] that
    the begin-block instruction of block [b] produced from [state]: its
    [operation] runs with the gas the frame had before the block less the
    placeholder [arg.number]; if the operation fails the frame halts with
    its status, and otherwise the frame is left with the gas it had before
    the block, less the block's cost, less what the operation spent. *)
Definition sees_true_gas
    (handler : nat -> execution_state -> continuation)
    (operation : execution_state -> evmc_status_code * execution_state)
    (state entered : execution_state) (b : block_info) (j : nat) : Prop :=
  let true_gas := gas_left state - number (arg (instr_at state j)) in
  let outcome := fst (operation (set_gas_left true_gas entered)) in
  let after := snd (operation (set_gas_left true_gas entered)) in
  let spent := true_gas - gas_left after in
  let final := gas_left state - Z.of_N (gas_cost b) - spent in
  (outcome <> EVMC_SUCCESS -> handler j entered = (None, set_status outcome after)) /\
  (outcome = EVMC_SUCCESS -> final < 0 ->
     handler j entered = (None, set_status EVMC_OUT_OF_GAS (set_gas_left final after))) /\
  (outcome = EVMC_SUCCESS -> 0 <= final ->
     handler j entered = (Some (S j), set_gas_left final after)).

(** ** Termination *)

(** The handlers that halt the frame whatever the state. *)
Definition always_halts (f : instruction_exec_fn) : bool :=
  match f with
  | Fn.op_stop | Fn.op_invalid | Fn.op_return _ | Fn.op_undefined
  | Fn.op_selfdestruct => true
  | _ => false
  end.

(** What the loop needs of the instruction stream: it is not empty, its
    last instruction halts, and every jump destination is a begin-block
    instruction of a block that costs gas. *)
Record well_formed_stream (a : code_analysis) : Prop := {
  stream_not_empty : instrs a <> [];
  stream_ends_halting :
    forall p i,
      nth_error (instrs a) p = Some i -> S p = length (instrs a) ->
      always_halts (fn i) = true;
  jump_targets :
    forall dst,
      0 <= find_jumpdest a dst ->
      exists i,
        nth_error (instrs a) (Z.to_nat (find_jumpdest a dst)) = Some i /\
        fn i = Fn.opx_beginblock /\
        (1 <= gas_cost (block (arg i)))%N
}.

(** A collaborator leaves the analysis alone and adds no gas. *)
Definition keeps_frame (s s' : execution_state) : Prop :=
  analysis s' = analysis s /\ gas_left s' <= gas_left s.

(** A collaborator that reports success has not overdrawn the gas. *)
Definition solvent (s s' : execution_state) : Prop :=
  0 <= gas_left s -> 0 <= gas_left s'.

Record step_contracts : Prop := {
  check_memory_keeps :
    forall s offset n,
      keeps_frame s (snd (check_memory s offset n)) /\
      (fst (check_memory s offset n) = true -> solvent s (snd (check_memory s offset n)));
  on_state_keeps :
    forall name f s,
      instr_body name = on_state f -> keeps_frame s (f s) /\ solvent s (f s);
  with_status_keeps :
    forall name f s,
      instr_body name = with_status f -> fst (f s) = EVMC_SUCCESS ->
      keeps_frame s (snd (f s)) /\ solvent s (snd (f s));
  log_keeps :
    forall s n,
      fst (log s n) = EVMC_SUCCESS ->
      keeps_frame s (snd (log s n)) /\ solvent s (snd (log s n));
  sstore_keeps :
    forall s, fst (sstore s) = EVMC_SUCCESS -> keeps_frame s (snd (sstore s));
  call_keeps :
    forall Kind Static s,
      fst (call Kind Static s) = EVMC_SUCCESS -> keeps_frame s (snd (call Kind Static s));
  create_keeps :
    forall Kind s,
      fst (create Kind s) = EVMC_SUCCESS -> keeps_frame s (snd (create Kind s))
}.

(** A step to the next instruction or along a jump. *)
Definition advances (p : nat) (s : execution_state) (k : @continuation HostContext) : Prop :=
  forall p', fst k = Some p' ->
    analysis (snd k) = analysis s /\
    0 <= gas_left (snd k) <= gas_left s /\
    (p' = S p \/
     exists dst, 0 <= find_jumpdest (analysis s) dst /\
                 p' = Z.to_nat (find_jumpdest (analysis s) dst)).

(** The number of loop iterations that suffices for a frame with [g] gas
    over a stream of [n] instructions. *)
Definition iteration_bound (g : Z) (n : nat) : nat :=
  2 * Z.to_nat (g * (Z.of_nat n + 1) + Z.of_nat n).

End FurtherStatements.

(** A stream that loops: the block pushes its own address and jumps to it,
    so that only the gas check of the begin-block instruction ends it. *)
Definition looping_analysis : code_analysis :=
  {| instrs :=
       [ {| fn := Fn.opx_beginblock;
            arg := in_block {| gas_cost := 3; stack_req := 0; stack_max_growth := 1 |} |};
         {| fn := Fn.op_push_small; arg := in_small_push_value 0 |};
         {| fn := Fn.op_jump; arg := in_number 0 |};
         {| fn := Fn.op_stop; arg := in_number 0 |} ];
     jumpdest_lookup := fun pc => if pc =? 0 then 0 else -1 |}.

(** * Properties *)

Lemma status_eqb_eq (a b : evmc_status_code) : status_eqb a b = true <-> a = b.
Proof.
  split.
  - destruct a, b; simpl; intro H; try reflexivity; discriminate H.
  - intros ->. destruct b; reflexivity.
Qed.

Lemma status_eqb_neq (a b : evmc_status_code) : status_eqb a b = false <-> a <> b.
Proof.
  split.
  - intros H E. apply status_eqb_eq in E. congruence.
  - intro H. destruct (status_eqb a b) eqn:E; [ | reflexivity ].
    apply status_eqb_eq in E. contradiction.
Qed.

(** ** Sanity checks of the embedding *)

Example implementation_of_add :
  instruction_implementations OP_ADD = Some (Fn.op InstrFn.add).
Proof. reflexivity. Qed.

Example implementation_of_push5 :
  instruction_implementations 0x64 = Some Fn.op_push_small.
Proof. reflexivity. Qed.

Example implementation_of_push20 :
  instruction_implementations 0x73 = Some Fn.op_push_full.
Proof. reflexivity. Qed.

Example implementation_of_swap16 :
  instruction_implementations 0x9f = Some (Fn.op (InstrFn.swap 0x9f)).
Proof. reflexivity. Qed.

Example implementation_of_jumpdest :
  instruction_implementations OP_JUMPDEST = Some Fn.opx_beginblock.
Proof. reflexivity. Qed.

Example implementation_of_unassigned :
  instruction_implementations 0x0c = None.
Proof. reflexivity. Qed.

Example addmod_carries_between_limbs :
  add_then_reduce [2 ^ 64 - 1; 0; 0; 0; 0; 0] [1; 0; 0; 0; 0; 0] [0; 0; 1; 0; 0; 0]
  = [0; 1; 0; 0; 0; 0].
Proof. reflexivity. Qed.

Example addmod_subtracts_modulus :
  add_then_reduce [5; 0; 0; 0; 0; 0] [6; 0; 0; 0; 0; 0] [7; 0; 0; 0; 0; 0]
  = [4; 0; 0; 0; 0; 0].
Proof. reflexivity. Qed.

Example submod_adds_modulus :
  subtract_then_correct [1; 0; 0; 0; 0; 0] [2; 0; 0; 0; 0; 0] [7; 0; 0; 0; 0; 0]
  = [6; 0; 0; 0; 0; 0].
Proof. reflexivity. Qed.

Example decode_packed_offsets :
  let w := packed_offsets 160 64 112 0 in
  (out_offset_of w, x_offset_of w, y_offset_of w, mod_offset_of w) = (160, 64, 112, 0).
Proof. reflexivity. Qed.

Example store_then_load_limbs :
  load_limbs (store_limbs (fun _ => 0) 8 [1; 2; 3; 4; 5; 2 ^ 64 - 1]) 8
  = [1; 2; 3; 4; 5; 2 ^ 64 - 1].
Proof. reflexivity. Qed.

(** ** Little-endian loads and stores *)

Lemma load_le_range (m : Z -> Z) (n : nat) :
  forall off, 0 <= load_le m off n < 2 ^ (8 * Z.of_nat n).
Proof.
  induction n as [| n IH]; intro off.
  - cbn. lia.
  - cbn [load_le].
    replace (8 * Z.of_nat (S n)) with (8 + 8 * Z.of_nat n) by lia.
    rewrite Z.pow_add_r by lia.
    pose proof (IH (off + 1)). pose proof (Z.mod_pos_bound (m off) 256 ltac:(lia)).
    change (2 ^ 8) with 256. nia.
Qed.

Lemma load_le_ext (m1 m2 : Z -> Z) (n : nat) :
  forall off,
    (forall i, off <= i < off + Z.of_nat n -> m1 i = m2 i) ->
    load_le m1 off n = load_le m2 off n.
Proof.
  induction n as [| n IH]; intros off H.
  - reflexivity.
  - cbn [load_le]. rewrite (H off) by lia. rewrite (IH (off + 1)); [ reflexivity | ].
    intros i Hi. apply H. lia.
Qed.

Lemma load_le_split (m : Z -> Z) (a b : nat) :
  forall off,
    load_le m off (a + b)
    = load_le m off a + 2 ^ (8 * Z.of_nat a) * load_le m (off + Z.of_nat a) b.
Proof.
  induction a as [| a IH]; intro off.
  - cbn [load_le Nat.add]. rewrite Z.add_0_r. cbn. destruct (load_le m off b); reflexivity.
  - cbn [load_le Nat.add]. rewrite IH.
    replace (off + 1 + Z.of_nat a) with (off + Z.of_nat (S a)) by lia.
    replace (8 * Z.of_nat (S a)) with (8 + 8 * Z.of_nat a) by lia.
    rewrite Z.pow_add_r by lia. change (2 ^ 8) with 256. ring.
Qed.

(** The bytes of [v / 2^(8 j)], read back little-endian. *)
Lemma load_le_bytes_of (m : Z -> Z) (v base : Z) (n : nat) :
  forall j,
    0 <= j ->
    (forall i, 0 <= i < Z.of_nat n -> m (base + j + i) = (v / 2 ^ (8 * (j + i))) mod 256) ->
    load_le m (base + j) n = (v / 2 ^ (8 * j)) mod 2 ^ (8 * Z.of_nat n).
Proof.
  induction n as [| n IH]; intros j Hj H.
  - cbn [load_le]. change (8 * Z.of_nat 0) with 0. rewrite Z.pow_0_r, Z.mod_1_r. reflexivity.
  - cbn [load_le].
    replace (base + j + 1) with (base + (j + 1)) by lia.
    rewrite IH; [ | lia | ].
    + pose proof (H 0 ltac:(lia)) as H0. rewrite !Z.add_0_r in H0. rewrite H0.
      rewrite Z.mod_mod by lia.
      replace (8 * Z.of_nat (S n)) with (8 + 8 * Z.of_nat n) by lia.
      rewrite Z.pow_add_r by lia. change (2 ^ 8) with 256.
      rewrite Z.rem_mul_r by lia.
      replace (8 * (j + 1)) with (8 * j + 8) by lia.
      rewrite Z.pow_add_r by lia. change (2 ^ 8) with 256.
      rewrite Z.div_div by lia. reflexivity.
    + intros i Hi. replace (base + (j + 1) + i) with (base + j + (i + 1)) by lia.
      rewrite H by lia. replace (j + (i + 1)) with (j + 1 + i) by lia. reflexivity.
Qed.

(** A field of [n] bytes at byte [off] of a word. *)
Lemma load_le_as_bytes (w off : Z) (n : nat) :
  0 <= off -> off + Z.of_nat n <= 32 ->
  load_le (as_bytes w) off n = (w / 2 ^ (8 * off)) mod 2 ^ (8 * Z.of_nat n).
Proof.
  intros Hoff Hn.
  replace off with (0 + off) at 1 by lia.
  apply load_le_bytes_of; [ exact Hoff | ].
  intros i Hi. unfold as_bytes.
  replace ((0 <=? 0 + off + i) && (0 + off + i <? 32)) with true
    by (symmetry; apply andb_true_iff; split; [ apply Z.leb_le | apply Z.ltb_lt ]; lia).
  replace (0 + off + i) with (off + i) by lia. reflexivity.
Qed.

Lemma load_le_store_le_same (m : Z -> Z) (off v : Z) (n : nat) :
  load_le (store_le m off (Z.of_nat n) v) off n = v mod 2 ^ (8 * Z.of_nat n).
Proof.
  replace off with (off + 0) at 2 by lia.
  rewrite (load_le_bytes_of _ v off n 0); [ | lia | ].
  - change (8 * 0) with 0. rewrite Z.pow_0_r, Z.div_1_r. reflexivity.
  - intros i Hi. unfold store_le.
    replace ((off <=? off + 0 + i) && (off + 0 + i <? off + Z.of_nat n)) with true
      by (symmetry; apply andb_true_iff; split; [ apply Z.leb_le | apply Z.ltb_lt ]; lia).
    replace (off + 0 + i - off) with (0 + i) by lia. reflexivity.
Qed.

Lemma load_le_store_le_other (m : Z -> Z) (off len v a : Z) (n : nat) :
  a + Z.of_nat n <= off \/ off + len <= a ->
  load_le (store_le m off len v) a n = load_le m a n.
Proof.
  intro Hdisj. apply load_le_ext. intros i Hi. unfold store_le.
  destruct (Z.leb_spec off i); destruct (Z.ltb_spec i (off + len)); cbn [andb];
    try reflexivity; lia.
Qed.

(** ** Limb vectors in memory *)

Lemma limbs_value_range (limbs : list Z) :
  limbs_ok limbs -> 0 <= limbs_value limbs < 2 ^ (64 * Z.of_nat (length limbs)).
Proof.
  induction 1 as [| l rest Hl Hrest IH].
  - cbn. lia.
  - cbn [limbs_value length].
    replace (64 * Z.of_nat (S (length rest))) with (64 + 64 * Z.of_nat (length rest)) by lia.
    rewrite Z.pow_add_r by lia. nia.
Qed.

Lemma load_limbs_ok (m : Z -> Z) (off : Z) : limbs_ok (load_limbs m off).
Proof.
  unfold limbs_ok, load_limbs. apply Forall_map, Forall_forall. intros k _.
  unfold load_u64. apply (load_le_range m 8).
Qed.

Lemma load_limbs_length (m : Z -> Z) (off : Z) : length (load_limbs m off) = 6%nat.
Proof. reflexivity. Qed.

(** The six limbs at [off] are the 48 bytes at [off] read as one number. *)
Lemma limbs_value_load_limbs (m : Z -> Z) (off : Z) :
  limbs_value (load_limbs m off) = load_le m off 48.
Proof.
  unfold load_limbs, load_u64. cbn [map seq limbs_value].
  change 48%nat with (8 + (8 + (8 + (8 + (8 + 8)))))%nat.
  rewrite !load_le_split.
  change (8 * Z.of_nat 8) with 64.
  cbn [Z.of_nat Pos.of_succ_nat Pos.succ Z.mul Pos.mul Pos.add].
  replace (off + 0) with off by lia.
  replace (off + 8 + 8) with (off + 16) by lia.
  replace (off + 16 + 8) with (off + 24) by lia.
  replace (off + 24 + 8) with (off + 32) by lia.
  replace (off + 32 + 8) with (off + 40) by lia.
  lia.
Qed.

Lemma store_limbs_outside (limbs : list Z) :
  forall (m : Z -> Z) (off i : Z),
    i < off \/ off + 8 * Z.of_nat (length limbs) <= i ->
    store_limbs m off limbs i = m i.
Proof.
  induction limbs as [| l rest IH]; intros m off i Hi.
  - reflexivity.
  - cbn [store_limbs]. cbn [length] in Hi. rewrite IH by lia.
    unfold store_le.
    destruct (Z.leb_spec off i); destruct (Z.ltb_spec i (off + 8)); cbn [andb];
      try reflexivity; lia.
Qed.

(** Reading back what [store_limbs] wrote. *)
Lemma load_le_store_limbs (limbs : list Z) :
  forall (m : Z -> Z) (off : Z),
    limbs_ok limbs ->
    load_le (store_limbs m off limbs) off (8 * length limbs) = limbs_value limbs.
Proof.
  induction limbs as [| l rest IH]; intros m off Hok.
  - reflexivity.
  - inversion Hok as [| ? ? Hl Hrest]; subst.
    cbn [store_limbs limbs_value length].
    replace (8 * S (length rest))%nat with (8 + 8 * length rest)%nat by lia.
    rewrite load_le_split. change (Z.of_nat 8) with 8. change (8 * 8) with 64.
    rewrite IH by exact Hrest.
    rewrite (load_le_ext _ (store_le m off 8 l) 8 off).
    + pose proof (load_le_store_le_same m off l 8) as E.
      change (Z.of_nat 8) with 8 in E. change (8 * 8) with 64 in E.
      rewrite E, Z.mod_small by exact Hl. reflexivity.
    + intros i Hi. apply store_limbs_outside. change (Z.of_nat 8) with 8 in Hi. lia.
Qed.

(** ** The limb-wise kernels *)

Lemma add_limbs_spec (x : list Z) :
  forall (y : list Z) (carry : Z),
    length x = length y -> limbs_ok x -> limbs_ok y -> 0 <= carry <= 1 ->
    limbs_ok (fst (add_limbs x y carry)) /\
    length (fst (add_limbs x y carry)) = length x /\
    0 <= snd (add_limbs x y carry) <= 1 /\
    limbs_value (fst (add_limbs x y carry))
      + 2 ^ (64 * Z.of_nat (length x)) * snd (add_limbs x y carry)
    = limbs_value x + limbs_value y + carry.
Proof.
  induction x as [| xi x' IH]; intros [| yi y'] carry Hlen Hx Hy Hc;
    try discriminate Hlen.
  - cbn [add_limbs fst snd length limbs_value]. change (64 * Z.of_nat 0) with 0.
    rewrite Z.pow_0_r. split; [ apply Forall_nil | split; [ reflexivity | lia ] ].
  - inversion Hx as [| ? ? Hxi Hx']; inversion Hy as [| ? ? Hyi Hy']; subst.
    injection Hlen as Hlen.
    cbn [add_limbs].
    set (t := xi + yi + carry).
    assert (Ht : 0 <= t / 2 ^ 64 <= 1).
    { split; [ apply Z.div_pos; lia | ].
      apply Z.lt_succ_r, Z.div_lt_upper_bound; lia. }
    specialize (IH y' (t / 2 ^ 64) Hlen Hx' Hy' Ht).
    destruct (add_limbs x' y' (t / 2 ^ 64)) as [r c].
    cbn [fst snd] in *. destruct IH as (Hr & Hl & Hc' & Hv).
    repeat split.
    + constructor; [ apply Z.mod_pos_bound; lia | exact Hr ].
    + cbn [length]. congruence.
    + lia.
    + lia.
    + cbn [limbs_value length].
      replace (64 * Z.of_nat (S (length x'))) with (64 + 64 * Z.of_nat (length x')) by lia.
      rewrite Z.pow_add_r by lia.
      pose proof (Z.div_mod t (2 ^ 64) ltac:(lia)). nia.
Qed.

Lemma sub_limbs_spec (x : list Z) :
  forall (y : list Z) (borrow : Z),
    length x = length y -> limbs_ok x -> limbs_ok y -> 0 <= borrow <= 1 ->
    limbs_ok (fst (sub_limbs x y borrow)) /\
    length (fst (sub_limbs x y borrow)) = length x /\
    0 <= snd (sub_limbs x y borrow) <= 1 /\
    limbs_value (fst (sub_limbs x y borrow))
      - 2 ^ (64 * Z.of_nat (length x)) * snd (sub_limbs x y borrow)
    = limbs_value x - limbs_value y - borrow.
Proof.
  induction x as [| xi x' IH]; intros [| yi y'] borrow Hlen Hx Hy Hb;
    try discriminate Hlen.
  - cbn [sub_limbs fst snd length limbs_value]. change (64 * Z.of_nat 0) with 0.
    rewrite Z.pow_0_r. split; [ apply Forall_nil | split; [ reflexivity | lia ] ].
  - inversion Hx as [| ? ? Hxi Hx']; inversion Hy as [| ? ? Hyi Hy']; subst.
    injection Hlen as Hlen.
    cbn [sub_limbs].
    set (t := xi - yi - borrow).
    assert (Hb' : 0 <= (if t <? 0 then 1 else 0) <= 1) by (destruct (t <? 0); lia).
    assert (Hmod : t mod 2 ^ 64 = t + 2 ^ 64 * (if t <? 0 then 1 else 0)).
    { destruct (Z.ltb_spec t 0).
      - symmetry. apply Z.mod_unique with (q := -1); lia.
      - rewrite Z.mod_small; lia. }
    specialize (IH y' (if t <? 0 then 1 else 0) Hlen Hx' Hy' Hb').
    destruct (sub_limbs x' y' (if t <? 0 then 1 else 0)) as [r b].
    cbn [fst snd] in *. destruct IH as (Hr & Hl & Hb'' & Hv).
    repeat split.
    + constructor; [ apply Z.mod_pos_bound; lia | exact Hr ].
    + cbn [length]. congruence.
    + lia.
    + lia.
    + cbn [limbs_value length].
      replace (64 * Z.of_nat (S (length x'))) with (64 + 64 * Z.of_nat (length x')) by lia.
      rewrite Z.pow_add_r by lia. rewrite Hmod. nia.
Qed.

Lemma compare_limbs_spec (x : list Z) :
  forall y : list Z,
    length x = length y -> limbs_ok x -> limbs_ok y ->
    compare_limbs x y = (limbs_value x ?= limbs_value y).
Proof.
  induction x as [| xi x' IH]; intros [| yi y'] Hlen Hx Hy; try discriminate Hlen.
  - reflexivity.
  - inversion Hx as [| ? ? Hxi Hx']; inversion Hy as [| ? ? Hyi Hy']; subst.
    injection Hlen as Hlen.
    cbn [compare_limbs limbs_value]. rewrite (IH y' Hlen Hx' Hy').
    destruct (Z.compare_spec (limbs_value x') (limbs_value y')) as [E | L | G].
    + rewrite E. destruct (Z.compare_spec xi yi); symmetry;
        [ apply Z.compare_eq_iff | apply Z.compare_lt_iff | apply Z.compare_gt_iff ]; lia.
    + symmetry. apply Z.compare_lt_iff. lia.
    + symmetry. apply Z.compare_gt_iff. lia.
Qed.

Lemma less_than_or_equal_spec (x y : list Z) :
  length x = length y -> limbs_ok x -> limbs_ok y ->
  less_than_or_equal x y = (limbs_value x <=? limbs_value y).
Proof.
  intros Hlen Hx Hy. unfold less_than_or_equal, Z.leb.
  rewrite (compare_limbs_spec x y Hlen Hx Hy). reflexivity.
Qed.

(** The addition kernel on reduced-enough operands. *)
Lemma add_then_reduce_spec (x y m : list Z) :
  length x = 6%nat -> length y = 6%nat -> length m = 6%nat ->
  limbs_ok x -> limbs_ok y -> limbs_ok m ->
  0 < limbs_value m ->
  limbs_value x + limbs_value y < 2 * limbs_value m ->
  limbs_ok (add_then_reduce x y m) /\
  length (add_then_reduce x y m) = 6%nat /\
  limbs_value (add_then_reduce x y m)
  = (limbs_value x + limbs_value y) mod limbs_value m.
Proof.
  intros Lx Ly Lm Hx Hy Hm Hpos Hlt.
  unfold add_then_reduce.
  destruct (add_limbs_spec x y 0 ltac:(congruence) Hx Hy ltac:(lia))
    as (Hs & Ls & Hc & Hv).
  destruct (add_limbs x y 0) as [sum carry]. cbn [fst snd] in *.
  rewrite Lx in Hv, Ls. change (64 * Z.of_nat 6) with 384 in Hv.
  rewrite (less_than_or_equal_spec m sum ltac:(congruence) Hm Hs).
  pose proof (limbs_value_range sum Hs) as Rs. rewrite Ls in Rs.
  pose proof (limbs_value_range m Hm) as Rm. rewrite Lm in Rm.
  change (64 * Z.of_nat 6) with 384 in Rs, Rm.
  destruct (sub_limbs_spec sum m 0 ltac:(congruence) Hs Hm ltac:(lia))
    as (Hd & Ld & Hb & Hw).
  rewrite Ls in Hw, Ld. change (64 * Z.of_nat 6) with 384 in Hw.
  pose proof (limbs_value_range _ Hd) as Rd. rewrite Ld in Rd.
  change (64 * Z.of_nat 6) with 384 in Rd.
  destruct (Z.eqb_spec carry 0) as [C0 | C1]; cbn [negb orb].
  - destruct (Z.leb_spec (limbs_value m) (limbs_value sum)).
    + split; [ exact Hd | split; [ exact Ld | ] ].
      apply Z.mod_unique with (q := 1); nia.
    + split; [ exact Hs | split; [ exact Ls | ] ].
      rewrite Z.mod_small; lia.
  - split; [ exact Hd | split; [ exact Ld | ] ].
    apply Z.mod_unique with (q := 1); nia.
Qed.

Section Properties.

Context {HostContext : Type}.
Context {collaborators : @Collaborators HostContext}.

Local Abbreviation execution_state := (@execution_state HostContext).

(** ** Begin-block *)

(** C1.  The begin-block instruction of a block [b] subtracts [gas_cost b]
    from [gas_left]; it halts with OutOfGas if the result is negative,
    otherwise with StackUnderflow if the stack holds fewer than
    [stack_req b] items, otherwise with StackOverflow if the stack depth
    plus [stack_max_growth b] exceeds 1024; otherwise it records
    [gas_cost b] as [current_block_cost] and goes on to the next
    instruction. *)
Theorem opx_beginblock_contract :
  forall (b : block_info) (state : execution_state) (instr : nat),
    arg (instr_at state instr) = in_block b ->
    let remaining := gas_left state - Z.of_N (gas_cost b) in
    let depth := Z.of_nat (length (stack state)) in
    let charged := set_gas_left remaining state in
    (remaining < 0 ->
       opx_beginblock instr state = (None, set_status EVMC_OUT_OF_GAS charged)) /\
    (0 <= remaining -> depth < stack_req b ->
       opx_beginblock instr state = (None, set_status EVMC_STACK_UNDERFLOW charged)) /\
    (0 <= remaining -> stack_req b <= depth -> 1024 < depth + stack_max_growth b ->
       opx_beginblock instr state = (None, set_status EVMC_STACK_OVERFLOW charged)) /\
    (0 <= remaining -> stack_req b <= depth -> depth + stack_max_growth b <= 1024 ->
       opx_beginblock instr state
       = (Some (S instr), set_current_block_cost (gas_cost b) charged)).
Proof.
  intros b state instr Harg remaining depth charged.
  unfold opx_beginblock, exit, stack_size, evm_stack_limit.
  rewrite Harg. cbn [block gas_left set_gas_left stack].
  fold remaining. fold depth. fold charged.
  repeat split; intros.
  - destruct (Z.ltb_spec remaining 0); [ reflexivity | lia ].
  - destruct (Z.ltb_spec remaining 0); [ lia | ].
    destruct (Z.ltb_spec depth (stack_req b)); [ reflexivity | lia ].
  - destruct (Z.ltb_spec remaining 0); [ lia | ].
    destruct (Z.ltb_spec depth (stack_req b)); [ lia | ].
    destruct (Z.gtb_spec (depth + stack_max_growth b) 1024); [ reflexivity | lia ].
  - destruct (Z.ltb_spec remaining 0); [ lia | ].
    destruct (Z.ltb_spec depth (stack_req b)); [ lia | ].
    destruct (Z.gtb_spec (depth + stack_max_growth b) 1024); [ lia | reflexivity ].
Qed.

(** ** Dynamic-cost instructions *)

Ltac correction_cases :=
  intros instr state; cbv zeta;
  match goal with
  | |- context [fst (?operation ?credited)] =>
      destruct (operation credited) as [outcome after] eqn:Hop
  end;
  cbn [fst snd]; unfold exit;
  repeat split; intros;
  repeat match goal with
  | H : ?o <> EVMC_SUCCESS |- _ =>
      apply status_eqb_neq in H; rewrite ?H; clear H
  | H : ?o = EVMC_SUCCESS |- _ => subst o
  end;
  cbn [negb status_eqb gas_left set_gas_left];
  try reflexivity;
  match goal with
  | |- context [?g <? 0] => destruct (Z.ltb_spec g 0); [ try reflexivity; lia | try reflexivity; lia ]
  end.

Lemma op_sstore_pattern : follows_correction_pattern op_sstore sstore.
Proof. unfold follows_correction_pattern, op_sstore. correction_cases. Qed.

Lemma op_call_pattern (Kind : evmc_call_kind) (Static : bool) :
  follows_correction_pattern (op_call Kind Static) (call Kind Static).
Proof. unfold follows_correction_pattern, op_call. correction_cases. Qed.

Lemma op_create_pattern (Kind : evmc_call_kind) :
  follows_correction_pattern (op_create Kind) (create Kind).
Proof. unfold follows_correction_pattern, op_create. correction_cases. Qed.

(** C3.  The handler installed for each of SSTORE, CALL, CALLCODE,
    DELEGATECALL, STATICCALL, CREATE and CREATE2 adds
    [current_block_cost - arg.number] to [gas_left], runs its operation,
    halts with the operation's status when that is not success, and
    otherwise takes the correction back, halting with OutOfGas exactly when
    [gas_left] is then negative and continuing with the next instruction
    when it is not. *)
Theorem dynamic_cost_handlers_follow_correction_pattern :
  Forall
    (fun opcode =>
       exists f operation,
         instruction_implementations opcode = Some f /\
         underlying_operation f = Some operation /\
         follows_correction_pattern (invoke f) operation)
    dynamic_cost_opcodes.
Proof.
  unfold dynamic_cost_opcodes.
  repeat constructor.
  - exists Fn.op_sstore, sstore. split; [ reflexivity | split; [ reflexivity | apply op_sstore_pattern ] ].
  - exists (Fn.op_call EVMC_CALL false), (call EVMC_CALL false).
    split; [ reflexivity | split; [ reflexivity | apply op_call_pattern ] ].
  - exists (Fn.op_call EVMC_CALLCODE false), (call EVMC_CALLCODE false).
    split; [ reflexivity | split; [ reflexivity | apply op_call_pattern ] ].
  - exists (Fn.op_call EVMC_DELEGATECALL false), (call EVMC_DELEGATECALL false).
    split; [ reflexivity | split; [ reflexivity | apply op_call_pattern ] ].
  - exists (Fn.op_call EVMC_CALL true), (call EVMC_CALL true).
    split; [ reflexivity | split; [ reflexivity | apply op_call_pattern ] ].
  - exists (Fn.op_create EVMC_CREATE), (create EVMC_CREATE).
    split; [ reflexivity | split; [ reflexivity | apply op_create_pattern ] ].
  - exists (Fn.op_create EVMC_CREATE2), (create EVMC_CREATE2).
    split; [ reflexivity | split; [ reflexivity | apply op_create_pattern ] ].
Qed.

(** ** Jumps *)

(** C4.  JUMP pops the destination and halts with BadJumpDestination
    exactly when the destination exceeds the largest [int] or the
    jump-destination lookup gives no instruction for it; otherwise the
    cursor moves to the instruction the lookup gives.  JUMPI pops the
    destination and the condition: with a non-zero condition the cursor and
    the status are those of JUMP, with a zero condition both values are
    dropped and execution goes on with the next instruction. *)
Theorem jump_contract :
  forall (state : execution_state) (instr : nat) (dst : Z) (rest : list Z),
    stack state = dst :: rest ->
    let popped := set_stack rest state in
    let target := find_jumpdest (analysis state) dst in
    let invalid := int_max < dst \/ target < 0 in
    (fst (op_jump instr state) = None <-> invalid) /\
    (invalid ->
       op_jump instr state = (None, set_status EVMC_BAD_JUMP_DESTINATION popped)) /\
    (~ invalid -> op_jump instr state = (Some (Z.to_nat target), popped)) /\
    (forall (condition : Z) (below : list Z),
       rest = condition :: below ->
       let popped2 := set_stack below state in
       (condition <> 0 -> invalid ->
          op_jumpi instr state = (None, set_status EVMC_BAD_JUMP_DESTINATION popped2)) /\
       (condition <> 0 -> ~ invalid ->
          op_jumpi instr state = (Some (Z.to_nat target), popped2)) /\
       (condition = 0 -> op_jumpi instr state = (Some (S instr), popped2))).
Proof.
  intros state instr dst rest Hstack popped target invalid.
  assert (Hjump : op_jump instr state
                  = if (int_max <? dst) || (target <? 0)
                    then (None, set_status EVMC_BAD_JUMP_DESTINATION popped)
                    else (Some (Z.to_nat target), popped)).
  { unfold op_jump, stack_pop, stack_at, exit. rewrite Hstack. reflexivity. }
  assert (Hdec : (int_max <? dst) || (target <? 0) = true <-> invalid).
  { unfold invalid. rewrite orb_true_iff, !Z.ltb_lt. reflexivity. }
  assert (Hbad : invalid ->
                 op_jump instr state = (None, set_status EVMC_BAD_JUMP_DESTINATION popped)).
  { intro Hi. apply Hdec in Hi. rewrite Hjump, Hi. reflexivity. }
  assert (Hgood : ~ invalid -> op_jump instr state = (Some (Z.to_nat target), popped)).
  { intro Hn. rewrite Hjump.
    destruct ((int_max <? dst) || (target <? 0)) eqn:E; [ | reflexivity ].
    exfalso. apply Hn, Hdec. reflexivity. }
  split; [ | split; [ exact Hbad | split; [ exact Hgood | ] ] ].
  - split.
    + intro Hnone. rewrite Hjump in Hnone.
      destruct ((int_max <? dst) || (target <? 0)) eqn:E.
      * apply Hdec. reflexivity.
      * discriminate Hnone.
    + intro Hi. rewrite (Hbad Hi). reflexivity.
  - intros condition below Hrest popped2.
    assert (Hat : stack_at state 1 = condition).
    { unfold stack_at. rewrite Hstack, Hrest. reflexivity. }
    unfold op_jumpi. rewrite Hat.
    split; [ | split ].
    + intros Hc Hi. apply Z.eqb_neq in Hc. rewrite Hc. cbn [negb].
      rewrite (Hbad Hi). unfold stack_pop, popped, popped2.
      cbn [snd stack set_stack set_status tl]. rewrite Hrest. reflexivity.
    + intros Hc Hn. apply Z.eqb_neq in Hc. rewrite Hc. cbn [negb].
      rewrite (Hgood Hn). unfold stack_pop, popped, popped2.
      cbn [snd stack set_stack tl]. rewrite Hrest. reflexivity.
    + intros ->. cbn [Z.eqb negb]. unfold stack_pop, popped2.
      cbn [snd stack set_stack tl]. rewrite Hstack, Hrest. reflexivity.
Qed.

(** ** INVALID and undefined opcodes *)

(** C10.  The handler of the INVALID opcode halts the frame with
    InvalidInstruction, and it is the one the revision's table holds for
    INVALID whenever the revision gives that opcode a gas cost; for every
    opcode byte to which the revision gives no gas cost the table holds a
    handler that halts the frame with UndefinedInstruction; and the two
    statuses differ. *)
Theorem invalid_and_undefined_instruction :
  forall (undefined : Z) (gas_costs : evmc_revision -> Z -> Z) (traits : Z -> Z * Z)
         (Rev : evmc_revision) (state : execution_state) (instr : nat),
    let table := get_op_table undefined gas_costs traits Rev in
    invoke Fn.op_invalid instr state
      = (None, set_status EVMC_INVALID_INSTRUCTION state) /\
    (gas_costs Rev OP_INVALID <> undefined ->
       OpTableEntry.fn (table OP_INVALID) = Some Fn.op_invalid) /\
    (forall opcode : Z,
       gas_costs Rev opcode = undefined ->
       exists f,
         OpTableEntry.fn (table opcode) = Some f /\
         invoke f instr state = (None, set_status EVMC_UNDEFINED_INSTRUCTION state)) /\
    status (snd (invoke Fn.op_invalid instr state))
      <> status (snd (invoke Fn.op_undefined instr state)).
Proof.
  intros undefined gas_costs traits Rev state instr table.
  unfold table, get_op_table, op_tables, create_op_table.
  split; [ reflexivity | split; [ | split ] ].
  - intro Hdef. apply Z.eqb_neq in Hdef. rewrite Hdef. reflexivity.
  - intros opcode Hundef. exists Fn.op_undefined.
    apply Z.eqb_eq in Hundef. rewrite Hundef. split; reflexivity.
  - cbn. discriminate.
Qed.

(** ** The 384-bit instructions: operand decoding and the bounds check *)

(** The fields are the four 32-bit digits of the low 128 bits, the modulus
    offset being the least significant. *)
Lemma decoded_offsets (w : Z) :
  mod_offset_of w = w mod 2 ^ 32 /\
  y_offset_of w = (w / 2 ^ 32) mod 2 ^ 32 /\
  x_offset_of w = (w / 2 ^ 64) mod 2 ^ 32 /\
  out_offset_of w = (w / 2 ^ 96) mod 2 ^ 32.
Proof.
  unfold mod_offset_of, y_offset_of, x_offset_of, out_offset_of, load_u32.
  rewrite !load_le_as_bytes by (cbn; lia).
  change (8 * Z.of_nat 4) with 32. change (8 * 0) with 0.
  change (8 * 4) with 32. change (8 * 8) with 64. change (8 * 12) with 96.
  rewrite Z.pow_0_r, Z.div_1_r. repeat split; reflexivity.
Qed.

(** When the bounds check fails the handler returns null together with the
    state exactly as [check_memory] left it. *)
Lemma bigint_handler_bounds_failure :
  forall (f : instruction_exec_fn) (size : Z),
    In (f, size) bigint_handlers ->
    forall (state failed : execution_state) (instr : nat) (w : Z) (rest : list Z),
      stack state = w :: rest ->
      check_memory (set_stack rest state) (max_memory_index_of w) size = (false, failed) ->
      invoke f instr state = (None, failed).
Proof.
  intros f size Hin state failed instr w rest Hstack Hcheck.
  unfold max_memory_index_of, x_offset_of, y_offset_of, out_offset_of, mod_offset_of in Hcheck.
  cbn [In bigint_handlers] in Hin.
  destruct Hin as [H | [H | [H | []]]]; inversion H; subst f size; cbn [invoke].
  - unfold op_addmod384, stack_pop, stack_at. rewrite Hstack. cbn [nth tl].
    rewrite Hcheck. reflexivity.
  - unfold op_submod384, stack_pop, stack_at. rewrite Hstack. cbn [nth tl snd].
    rewrite Hcheck. reflexivity.
  - unfold op_mulmodmont384, stack_pop, stack_at. rewrite Hstack. cbn [nth tl snd].
    rewrite Hcheck. reflexivity.
Qed.

(** C7.  When the bounds check of ADDMOD384, SUBMOD384 or MULMODMONT384
    fails, the handler returns the null continuation and writes no status:
    the state it returns is the one [check_memory] left.  So, [check_memory]
    itself not touching the status, the loop ends with the status the frame
    had before the instruction. *)
Theorem bigint_bounds_failure_keeps_status :
  forall (f : instruction_exec_fn) (size : Z)
         (state failed : execution_state) (instr : nat) (i : instruction)
         (w : Z) (rest : list Z) (fuel : nat),
    In (f, size) bigint_handlers ->
    (forall s offset n, status (snd (check_memory s offset n)) = status s) ->
    nth_error (instrs (analysis state)) instr = Some i ->
    fn i = f ->
    stack state = w :: rest ->
    check_memory (set_stack rest state) (max_memory_index_of w) size = (false, failed) ->
    invoke f instr state = (None, failed) /\
    run (S fuel) (Some instr) state = Some failed /\
    status failed = status state.
Proof.
  intros f size state failed instr i w rest fuel Hin Hframe Hnth Hfn Hstack Hcheck.
  pose proof (bigint_handler_bounds_failure f size Hin state failed instr w rest
                Hstack Hcheck) as Hinvoke.
  split; [ exact Hinvoke | split ].
  - cbn [run]. rewrite Hnth, Hfn, Hinvoke. destruct fuel; reflexivity.
  - pose proof (Hframe (set_stack rest state) (max_memory_index_of w) size) as Hs.
    rewrite Hcheck in Hs. exact Hs.
Qed.

(** What each of the three handlers does with a stack [w :: rest]: one word
    is popped, [check_memory] is asked for [size] bytes at the largest of
    the four offsets, and on success the kernel is run on the buffer with
    the four decoded offsets. *)
Lemma bigint_handler_shape :
  forall (state : execution_state) (instr : nat) (w : Z) (rest : list Z),
    stack state = w :: rest ->
    let popped := set_stack rest state in
    let run_kernel (size : Z) (kernel : (Z -> Z) -> Z -> Z) : continuation :=
      let checked := snd (check_memory popped (max_memory_index_of w) size) in
      if fst (check_memory popped (max_memory_index_of w) size)
      then (Some (S instr), set_bytes (kernel (mem_byte (memory checked))) checked)
      else (None, checked) in
    op_addmod384 instr state
    = run_kernel 48 (fun mem =>
        addmod384_64bitlimbs mem (out_offset_of w) (x_offset_of w) (y_offset_of w)
          (mod_offset_of w)) /\
    op_submod384 instr state
    = run_kernel 48 (fun mem =>
        subtractmod384_64bitlimbs mem (out_offset_of w) (x_offset_of w) (y_offset_of w)
          (mod_offset_of w)) /\
    op_mulmodmont384 instr state
    = run_kernel 56 (fun mem =>
        store_limbs mem (out_offset_of w)
          ((if USE_ASM then mulx_mont_384 else montmul384_64bitlimbs)
             (load_limbs mem (x_offset_of w)) (load_limbs mem (y_offset_of w))
             (load_limbs mem (mod_offset_of w))
             (load_u64 mem (inv_offset (mod_offset_of w))))).
Proof.
  intros state instr w rest Hstack popped run_kernel.
  unfold run_kernel, popped, max_memory_index_of, x_offset_of, y_offset_of,
    out_offset_of, mod_offset_of.
  unfold op_addmod384, op_submod384, op_mulmodmont384, stack_pop, stack_at.
  rewrite Hstack. cbn [nth tl snd].
  destruct (check_memory (set_stack rest state) _ 48) as [[|] checked48];
  destruct (check_memory (set_stack rest state) _ 56) as [[|] checked56];
  cbn [fst snd negb]; destruct USE_ASM; repeat split; reflexivity.
Qed.

Lemma overlap_apart (a b : Z) : apart a b -> overlap a b = false.
Proof.
  unfold apart, overlap. intros [H | H].
  - apply andb_false_intro2. apply Z.ltb_ge. lia.
  - apply andb_false_intro1. apply Z.ltb_ge. lia.
Qed.

Lemma inv_offset_no_wrap (mod_offset : Z) :
  0 <= mod_offset -> mod_offset + 48 < 2 ^ 32 -> inv_offset mod_offset = mod_offset + 48.
Proof. intros H0 H1. unfold inv_offset. apply Z.mod_small. lia. Qed.

(** ** ADDMOD384 *)

(** C5 (amended).  When the bounds check of ADDMOD384 succeeds, the
    instruction continues with the next one.  When moreover the output
    range shares no byte with the ranges of the operands and of the
    modulus, and the operands read at the decoded offsets satisfy
    [x + y < 2 * m], the 48 bytes at the output offset then hold
    [(x + y) mod m], little-endian.  In particular this is so, for such
    operands, for the word that packs the offsets 160 (output), 64 (x),
    112 (y) and 0 (modulus). *)
Theorem addmod384_reduces_sum :
  forall (state checked : execution_state) (instr : nat) (w : Z) (rest : list Z),
    stack state = w :: rest ->
    check_memory (set_stack rest state) (max_memory_index_of w) 48 = (true, checked) ->
    let mem := mem_byte (memory checked) in
    let x := load_le mem (x_offset_of w) 48 in
    let y := load_le mem (y_offset_of w) 48 in
    let m := load_le mem (mod_offset_of w) 48 in
    let mem' := mem_byte (memory (snd (op_addmod384 instr state))) in
    x + y < 2 * m ->
    fst (op_addmod384 instr state) = Some (S instr) /\
    (output_apart w -> load_le mem' (out_offset_of w) 48 = (x + y) mod m) /\
    (w = packed_offsets 160 64 112 0 ->
     load_le mem' 160 48 = (load_le mem 64 48 + load_le mem 112 48) mod load_le mem 0 48).
Proof.
  intros state checked instr w rest Hstack Hcheck mem x y m mem' Hlt.
  destruct (bigint_handler_shape state instr w rest Hstack) as (Hadd & _).
  cbv zeta in Hadd. rewrite Hcheck in Hadd. cbn [fst snd] in Hadd.
  assert (Hmem' : output_apart w -> load_le mem' (out_offset_of w) 48 = (x + y) mod m).
  { intros (Hx & Hy & Hm). subst mem' x y m. rewrite Hadd.
    cbn [snd set_bytes memory set_memory mem_byte]. fold mem. fold mem in Hlt.
    unfold addmod384_64bitlimbs.
    rewrite (overlap_apart _ _ Hx), (overlap_apart _ _ Hy), (overlap_apart _ _ Hm).
    cbn [orb].
    pose proof (load_le_range mem 48 (x_offset_of w)) as Rx.
    pose proof (load_le_range mem 48 (y_offset_of w)) as Ry.
    destruct (add_then_reduce_spec
                (load_limbs mem (x_offset_of w)) (load_limbs mem (y_offset_of w))
                (load_limbs mem (mod_offset_of w)))
      as (Hok & Hlen & Hval);
      try apply load_limbs_length; try apply load_limbs_ok;
      rewrite ?limbs_value_load_limbs; try lia.
    rewrite !limbs_value_load_limbs in Hval.
    rewrite <- Hval, <- (load_le_store_limbs _ mem (out_offset_of w) Hok), Hlen.
    reflexivity. }
  split; [ rewrite Hadd; reflexivity | split; [ exact Hmem' | ] ].
  intros ->. apply Hmem'. unfold output_apart, apart. vm_compute. intuition discriminate.
Qed.

(** ** RETURN and REVERT *)

(** C8 (amended).  RETURN and REVERT read the offset and the size from the
    two top stack slots and pop nothing: the handler leaves the stack as
    the bounds check returned it.  If the bounds check on that range fails
    the frame halts with OutOfGas.  Otherwise the frame halts with Success
    for RETURN and with Revert for REVERT, and the range is its output: the
    size is recorded, the offset is recorded unless the size is zero, and
    for an offset and a size that fit a [size_t] the bytes of the recorded
    output are those of the addressed range. *)
Theorem return_contract :
  forall (status_code : evmc_status_code) (state : execution_state) (instr : nat)
         (offset size : Z) (below : list Z),
    stack state = offset :: size :: below ->
    let ok := fst (check_memory state offset size) in
    let checked := snd (check_memory state offset size) in
    let final := snd (op_return status_code instr state) in
    fst (op_return status_code instr state) = None /\
    stack final = stack checked /\
    (stack checked = stack state -> stack final = offset :: size :: below) /\
    (ok = false ->
       op_return status_code instr state = (None, set_status EVMC_OUT_OF_GAS checked)) /\
    (ok = true -> to_size_t size <> 0 ->
       op_return status_code instr state
       = (None, set_status status_code
                  (set_output_offset (to_size_t offset)
                     (set_output_size (to_size_t size) checked)))) /\
    (ok = true -> to_size_t size = 0 ->
       op_return status_code instr state
       = (None, set_status status_code (set_output_size 0 checked))) /\
    (ok = true -> 0 <= size < 2 ^ 64 -> (size <> 0 -> 0 <= offset < 2 ^ 64) ->
       status final = status_code /\
       memory_range (memory final) (output_offset final) (output_size final)
       = memory_range (memory checked) offset size) /\
    instruction_implementations OP_RETURN = Some (Fn.op_return EVMC_SUCCESS) /\
    instruction_implementations OP_REVERT = Some (Fn.op_return EVMC_REVERT).
Proof.
  intros status_code state instr offset size below Hstack ok checked final.
  assert (Hop : op_return status_code instr state
                = if negb ok then exit checked EVMC_OUT_OF_GAS
                  else exit
                         (if negb (to_size_t size =? 0)
                          then set_output_offset (to_size_t offset)
                                 (set_output_size (to_size_t size) checked)
                          else set_output_size (to_size_t size) checked)
                         status_code).
  { unfold op_return, stack_at, ok, checked. rewrite Hstack. cbn [nth].
    destruct (check_memory state offset size) as [b s1]. reflexivity. }
  subst final. rewrite Hop. unfold exit.
  assert (Hkeeps : stack (snd (if negb ok then (None, set_status EVMC_OUT_OF_GAS checked)
                               else (@None nat,
                                     set_status status_code
                                       (if negb (to_size_t size =? 0)
                                        then set_output_offset (to_size_t offset)
                                               (set_output_size (to_size_t size) checked)
                                        else set_output_size (to_size_t size) checked))))
                   = stack checked).
  { destruct ok; destruct (to_size_t size =? 0); reflexivity. }
  split; [ destruct ok; reflexivity | ].
  split; [ exact Hkeeps | ].
  split; [ intro Hkept; transitivity (stack checked);
           [ exact Hkeeps | rewrite Hkept; exact Hstack ] | ].
  split; [ | split; [ | split; [ | split; [ | split; reflexivity ] ] ] ].
  - intros ->. reflexivity.
  - intros -> Hsize. apply Z.eqb_neq in Hsize. rewrite Hsize. reflexivity.
  - intros -> Hsize. rewrite Hsize. reflexivity.
  - intros -> Hsize Hoffset. cbn [negb snd]. unfold to_size_t.
    rewrite (Z.mod_small size) by lia.
    destruct (Z.eqb_spec size 0) as [-> | Hnz]; [ split; reflexivity | ].
    rewrite (Z.mod_small offset) by (apply Hoffset, Hnz). split; reflexivity.
Qed.

End Properties.

(** * Further properties *)

(** ** The handler tables *)

Lemma fold_assign_other (l : list (Z * instruction_exec_fn)) :
  forall (table : fn_table) (i : Z),
    (forall e, In e l -> fst e <> i) ->
    fold_left assign l table i = table i.
Proof.
  induction l as [| e l IH]; intros table i Hkeys.
  - reflexivity.
  - cbn [fold_left]. rewrite IH by (intros e' He'; apply Hkeys; right; exact He').
    unfold assign. destruct (Z.eqb_spec i (fst e)) as [E | _]; [ | reflexivity ].
    exfalso. apply (Hkeys e); [ left; reflexivity | congruence ].
Qed.

Lemma fold_assign_origin (l : list (Z * instruction_exec_fn)) :
  forall (table : fn_table) (i : Z) (f : instruction_exec_fn),
    fold_left assign l table i = Some f ->
    table i = Some f \/ In f (map snd l).
Proof.
  induction l as [| e l IH]; intros table i f H.
  - left. exact H.
  - cbn [fold_left] in H. destruct (IH _ _ _ H) as [Ht | Hin].
    + unfold assign in Ht. destruct (i =? fst e).
      * right. left. congruence.
      * left. exact Ht.
    + right. right. exact Hin.
Qed.

Lemma opcode_range_complete (first : Z) (n : nat) (i : Z) :
  first <= i < first + Z.of_nat n -> In i (opcode_range first n).
Proof.
  intro Hi. unfold opcode_range. apply in_map_iff.
  exists (Z.to_nat (i - first)). split; [ lia | ].
  apply in_seq. lia.
Qed.

Lemma implemented_in_byte (i : Z) : implemented i = true -> 0 <= i < 256.
Proof.
  unfold implemented.
  rewrite !orb_true_iff, !andb_true_iff, !Z.leb_le, !Z.eqb_eq.
  cbv [OP_STOP OP_SIGNEXTEND OP_LT OP_SAR OP_SHA3 OP_ADDRESS OP_SELFBALANCE OP_POP
       OP_JUMPDEST OP_PUSH1 OP_LOG4 OP_CREATE OP_CREATE2 OP_STATICCALL OP_REVERT
       OP_SELFDESTRUCT].
  lia.
Qed.

(** An opcode has a handler in [instruction_implementations] exactly when
    it lies in one of the assigned ranges. *)
Lemma instruction_implementations_none (i : Z) :
  instruction_implementations i = None <-> implemented i = false.
Proof.
  assert (Hbyte : forall j, In j (opcode_range 0 256) ->
                    (match instruction_implementations j with
                     | None => negb (implemented j)
                     | Some _ => implemented j
                     end) = true).
  { apply Forall_forall. vm_compute. repeat constructor. }
  destruct (Z_lt_le_dec i 0) as [Hneg | Hpos];
    [ | destruct (Z_lt_le_dec i 256) as [Hlt | Hge] ].
  - split; intros _.
    + destruct (implemented i) eqn:E; [ | reflexivity ].
      apply implemented_in_byte in E. lia.
    + unfold instruction_implementations. rewrite fold_assign_other; [ reflexivity | ].
      intros e He Hk.
      assert (Hall : Forall (fun e => 0 <= fst e) implementation_assignments).
      { vm_compute. repeat constructor; discriminate. }
      rewrite Forall_forall in Hall. specialize (Hall e He). lia.
  - specialize (Hbyte i (opcode_range_complete 0 256 i ltac:(lia))).
    destruct (instruction_implementations i); destruct (implemented i);
      cbn in Hbyte; split; intro H; congruence.
  - split; intros _.
    + destruct (implemented i) eqn:E; [ | reflexivity ].
      apply implemented_in_byte in E. lia.
    + unfold instruction_implementations. rewrite fold_assign_other; [ reflexivity | ].
      intros e He Hk.
      assert (Hall : Forall (fun e => fst e < 256) implementation_assignments).
      { vm_compute. repeat constructor. }
      rewrite Forall_forall in Hall. specialize (Hall e He). lia.
Qed.

(** A table entry holds [op_undefined] or a handler that
    [instruction_implementations] assigns, and so none of the three 384-bit
    handlers. *)
Lemma op_table_halts_through_exit
    (undefined : Z) (gas_costs : evmc_revision -> Z -> Z) (traits : Z -> Z * Z)
    (Rev : evmc_revision) (opcode : Z) (f : instruction_exec_fn) :
  OpTableEntry.fn (get_op_table undefined gas_costs traits Rev opcode) = Some f ->
  halts_through_exit f = true.
Proof.
  unfold get_op_table, op_tables, create_op_table.
  destruct (gas_costs Rev opcode =? undefined); cbn [OpTableEntry.fn].
  - intro H. injection H as <-. reflexivity.
  - unfold instruction_implementations. intro H.
    destruct (fold_assign_origin _ _ _ _ H) as [Hnull | Hin]; [ discriminate Hnull | ].
    assert (Hall : Forall (fun g => halts_through_exit g = true)
                     (map snd implementation_assignments)).
    { vm_compute. repeat constructor. }
    rewrite Forall_forall in Hall. apply Hall, Hin.
Qed.

(** X1.  In no revision does the table's entry for any opcode hold one of
    the three 384-bit handlers: [instruction_implementations] never assigns
    them, and [create_op_table] installs only [op_undefined] or what
    [instruction_implementations] holds. *)
Theorem bigint_handlers_in_no_table :
  forall (undefined : Z) (gas_costs : evmc_revision -> Z -> Z) (traits : Z -> Z * Z)
         (Rev : evmc_revision) (opcode : Z),
    let entry := get_op_table undefined gas_costs traits Rev opcode in
    OpTableEntry.fn entry <> Some Fn.op_addmod384 /\
    OpTableEntry.fn entry <> Some Fn.op_submod384 /\
    OpTableEntry.fn entry <> Some Fn.op_mulmodmont384.
Proof.
  intros undefined gas_costs traits Rev opcode entry.
  assert (Himpl : forall f,
             instruction_implementations opcode = Some f ->
             In f (map snd implementation_assignments)).
  { intros f Hf. unfold instruction_implementations in Hf.
    destruct (fold_assign_origin _ _ _ _ Hf) as [Hnull | Hin];
      [ discriminate Hnull | exact Hin ]. }
  assert (Hentry : forall f,
             OpTableEntry.fn entry = Some f ->
             f = Fn.op_undefined \/ In f (map snd implementation_assignments)).
  { intros f. unfold entry, get_op_table, op_tables, create_op_table.
    destruct (gas_costs Rev opcode =? undefined); cbn [OpTableEntry.fn].
    - intro H. left. congruence.
    - intro H. right. apply Himpl, H. }
  repeat split; intro H; destruct (Hentry _ H) as [Hu | Hin];
    try discriminate Hu;
    vm_compute in Hin;
    repeat (destruct Hin as [Hin | Hin]; [ discriminate Hin | ]);
    exact Hin.
Qed.

(** X2.  The table of a revision holds a null handler for an opcode byte
    exactly when the revision gives the opcode a gas cost and the opcode
    lies outside the ranges [instruction_implementations] assigns; an
    opcode the revision leaves undefined never gets a null handler. *)
Theorem null_handler_iff_priced_and_unimplemented :
  forall (undefined : Z) (gas_costs : evmc_revision -> Z -> Z) (traits : Z -> Z * Z)
         (Rev : evmc_revision) (opcode : Z),
    0 <= opcode < 256 ->
    (OpTableEntry.fn (get_op_table undefined gas_costs traits Rev opcode) = None
     <-> gas_costs Rev opcode <> undefined /\ implemented opcode = false).
Proof.
  intros undefined gas_costs traits Rev opcode _.
  unfold get_op_table, op_tables, create_op_table.
  rewrite <- instruction_implementations_none.
  destruct (Z.eqb_spec (gas_costs Rev opcode) undefined) as [E | N];
    cbn [OpTableEntry.fn].
  - split; [ discriminate | intros [H _]; contradiction ].
  - split; [ intro H; split; assumption | intros [_ H]; exact H ].
Qed.

(** ** Operand words of the 384-bit instructions *)

Lemma load_u32_range (m : Z -> Z) (off : Z) : 0 <= load_u32 m off < 2 ^ 32.
Proof. apply (load_le_range m 4). Qed.

(** X3.  The handlers read the four offsets from the low 128 bits of the
    popped word and ignore the rest: a word made of four 32-bit offsets,
    the modulus offset lowest, then y, x and the output offset, decodes to
    these offsets whatever its upper 128 bits hold. *)
Theorem packed_offsets_decode :
  forall out_offset x_offset y_offset mod_offset high : Z,
    0 <= out_offset < 2 ^ 32 -> 0 <= x_offset < 2 ^ 32 ->
    0 <= y_offset < 2 ^ 32 -> 0 <= mod_offset < 2 ^ 32 ->
    let w := packed_offsets out_offset x_offset y_offset mod_offset + 2 ^ 128 * high in
    out_offset_of w = out_offset /\ x_offset_of w = x_offset /\
    y_offset_of w = y_offset /\ mod_offset_of w = mod_offset.
Proof.
  intros o x y m h Ho Hx Hy Hm w.
  destruct (decoded_offsets w) as (Dm & Dy & Dx & Do).
  rewrite Dm, Dy, Dx, Do. unfold w, packed_offsets.
  assert (D32 : (m + 2 ^ 32 * y + 2 ^ 64 * x + 2 ^ 96 * o + 2 ^ 128 * h) / 2 ^ 32
                = y + 2 ^ 32 * (x + 2 ^ 32 * (o + 2 ^ 32 * h))).
  { symmetry. apply Z.div_unique with (r := m); [ left; exact Hm | ].
    change (2 ^ 64) with (2 ^ 32 * 2 ^ 32).
    change (2 ^ 96) with (2 ^ 32 * (2 ^ 32 * 2 ^ 32)).
    change (2 ^ 128) with (2 ^ 32 * (2 ^ 32 * (2 ^ 32 * 2 ^ 32))). ring. }
  assert (D64 : (m + 2 ^ 32 * y + 2 ^ 64 * x + 2 ^ 96 * o + 2 ^ 128 * h) / 2 ^ 64
                = x + 2 ^ 32 * (o + 2 ^ 32 * h)).
  { symmetry. apply Z.div_unique with (r := m + 2 ^ 32 * y); [ left; lia | ].
    change (2 ^ 96) with (2 ^ 64 * 2 ^ 32).
    change (2 ^ 128) with (2 ^ 64 * (2 ^ 32 * 2 ^ 32)). ring. }
  assert (D96 : (m + 2 ^ 32 * y + 2 ^ 64 * x + 2 ^ 96 * o + 2 ^ 128 * h) / 2 ^ 96
                = o + 2 ^ 32 * h).
  { symmetry.
    apply Z.div_unique with (r := m + 2 ^ 32 * y + 2 ^ 64 * x); [ left; lia | ].
    change (2 ^ 128) with (2 ^ 96 * 2 ^ 32). ring. }
  rewrite D32, D64, D96.
  repeat split; symmetry.
  - apply Z.mod_unique with (q := h); [ left; exact Ho | ring ].
  - apply Z.mod_unique with (q := o + 2 ^ 32 * h); [ left; exact Hx | ring ].
  - apply Z.mod_unique with (q := x + 2 ^ 32 * (o + 2 ^ 32 * h)); [ left; exact Hy | ring ].
  - apply Z.mod_unique
      with (q := y + 2 ^ 32 * (x + 2 ^ 32 * (o + 2 ^ 32 * h))); [ left; exact Hm | ].
    change (2 ^ 64) with (2 ^ 32 * 2 ^ 32).
    change (2 ^ 96) with (2 ^ 32 * (2 ^ 32 * 2 ^ 32)).
    change (2 ^ 128) with (2 ^ 32 * (2 ^ 32 * (2 ^ 32 * 2 ^ 32))). ring.
Qed.

(** X4.  Whatever word is popped, every operand the 384-bit handlers
    touch lies inside the range they had [check_memory] verify: each of the
    four offsets is between 0 and the index passed to [check_memory], so a
    48-byte operand ends at most 48 bytes past it; and the eight bytes of
    the inverse of MULMODMONT384 end at most 56 bytes past it, at the
    modulus offset plus 48 when that sum fits 32 bits and at the wrapped
    index otherwise. *)
Theorem bigint_operands_within_checked_range :
  forall w : Z,
    let top := max_memory_index_of w in
    Forall (fun offset => 0 <= offset /\ offset + 48 <= top + 48)
      [out_offset_of w; x_offset_of w; y_offset_of w; mod_offset_of w] /\
    top < 2 ^ 32 /\
    0 <= inv_offset (mod_offset_of w) /\
    inv_offset (mod_offset_of w) + 8 <= top + 56 /\
    (mod_offset_of w + 48 < 2 ^ 32 ->
       inv_offset (mod_offset_of w) = mod_offset_of w + 48) /\
    (2 ^ 32 <= mod_offset_of w + 48 ->
       inv_offset (mod_offset_of w) = mod_offset_of w + 48 - 2 ^ 32).
Proof.
  intros w top.
  pose proof (load_u32_range (as_bytes w) 12) as Ho.
  pose proof (load_u32_range (as_bytes w) 8) as Hx.
  pose proof (load_u32_range (as_bytes w) 4) as Hy.
  pose proof (load_u32_range (as_bytes w) 0) as Hm.
  assert (Hwrap : 2 ^ 32 <= mod_offset_of w + 48 ->
                  inv_offset (mod_offset_of w) = mod_offset_of w + 48 - 2 ^ 32).
  { intro H. unfold inv_offset, mod_offset_of in *.
    symmetry. apply Z.mod_unique with (q := 1); lia. }
  assert (Hfit : mod_offset_of w + 48 < 2 ^ 32 ->
                 inv_offset (mod_offset_of w) = mod_offset_of w + 48).
  { intro H. apply inv_offset_no_wrap; unfold mod_offset_of in *; lia. }
  unfold top, max_memory_index_of, out_offset_of, x_offset_of, y_offset_of in *.
  unfold mod_offset_of in *.
  split; [ repeat constructor; lia | ].
  split; [ lia | ].
  destruct (Z_lt_le_dec (load_u32 (as_bytes w) 0 + 48) (2 ^ 32)) as [Hlt | Hge].
  - rewrite (Hfit Hlt). repeat split; try lia; assumption.
  - rewrite (Hwrap Hge). repeat split; try lia; assumption.
Qed.

Section FurtherProperties.

Context {HostContext : Type}.
Context {collaborators : @Collaborators HostContext}.

Local Abbreviation execution_state := (@execution_state HostContext).

(** ** Gas seen inside a block *)

Lemma opx_beginblock_entered (state entered : execution_state) (i next : nat) :
  opx_beginblock i state = (Some next, entered) ->
  let b := block (arg (instr_at state i)) in
  next = S i /\
  entered = set_current_block_cost (gas_cost b)
              (set_gas_left (gas_left state - Z.of_N (gas_cost b)) state) /\
  0 <= gas_left state - Z.of_N (gas_cost b).
Proof.
  unfold opx_beginblock, exit. cbn [gas_left set_gas_left].
  destruct (Z.ltb_spec (gas_left state - Z.of_N (gas_cost (block (arg (instr_at state i))))) 0)
    as [Hneg | Hpos]; [ discriminate | ].
  destruct (stack_size _ <? _); [ discriminate | ].
  destruct (_ >? evm_stack_limit); [ discriminate | ].
  intro Heq. injection Heq as <- <-. cbv zeta. repeat split. exact Hpos.
Qed.

Lemma sees_true_gas_of_pattern
    (handler : nat -> execution_state -> continuation)
    (operation : execution_state -> evmc_status_code * execution_state)
    (state entered : execution_state) (i j next : nat) :
  follows_correction_pattern handler operation ->
  opx_beginblock i state = (Some next, entered) ->
  sees_true_gas handler operation state entered (block (arg (instr_at state i))) j.
Proof.
  intros Hpattern Hbegin.
  destruct (opx_beginblock_entered _ _ _ _ Hbegin) as (_ & -> & _).
  specialize (Hpattern j
    (set_current_block_cost (gas_cost (block (arg (instr_at state i))))
       (set_gas_left (gas_left state - Z.of_N (gas_cost (block (arg (instr_at state i)))))
          state))).
  cbv zeta in Hpattern.
  cbn [current_block_cost set_current_block_cost gas_left set_gas_left] in Hpattern.
  change (instr_at (set_current_block_cost _ (set_gas_left _ state)) j)
    with (instr_at state j) in Hpattern.
  set (b := block (arg (instr_at state i))) in *.
  set (k := number (arg (instr_at state j))) in *.
  unfold sees_true_gas. fold k. cbv zeta.
  assert (Hcredit :
            set_gas_left (gas_left state - Z.of_N (gas_cost b) + (Z.of_N (gas_cost b) - k))
              (set_current_block_cost (gas_cost b)
                 (set_gas_left (gas_left state - Z.of_N (gas_cost b)) state))
            = set_gas_left (gas_left state - k)
                (set_current_block_cost (gas_cost b)
                   (set_gas_left (gas_left state - Z.of_N (gas_cost b)) state))).
  { f_equal. lia. }
  rewrite Hcredit in Hpattern.
  set (credited := set_gas_left (gas_left state - k) _) in *.
  replace (gas_left state - Z.of_N (gas_cost b)
           - (gas_left state - k - gas_left (snd (operation credited))))
    with (gas_left (snd (operation credited)) - (Z.of_N (gas_cost b) - k)) by lia.
  exact Hpattern.
Qed.

(** X5.  Right after the begin-block instruction of a block, GAS pushes
    the gas the frame had before the block less the placeholder in its
    [arg.number] (as a 64-bit value) and charges nothing itself; and the
    operations of SSTORE, the calls and the creations run with that same
    amount of gas, after which the frame keeps the gas it had before the
    block, less the block's cost, less what the operation spent. *)
Theorem gas_seen_inside_block :
  forall (state entered : execution_state) (i j next : nat),
    opx_beginblock i state = (Some next, entered) ->
    let b := block (arg (instr_at state i)) in
    let true_gas := gas_left state - number (arg (instr_at state j)) in
    gas_left entered = gas_left state - Z.of_N (gas_cost b) /\
    op_gas j entered = (Some (S j), stack_push (true_gas mod 2 ^ 64) entered) /\
    sees_true_gas op_sstore sstore state entered b j /\
    (forall Kind Static,
       sees_true_gas (op_call Kind Static) (call Kind Static) state entered b j) /\
    (forall Kind, sees_true_gas (op_create Kind) (create Kind) state entered b j).
Proof.
  intros state entered i j next Hbegin b true_gas.
  split; [ | split; [ | split; [ | split ] ] ].
  - destruct (opx_beginblock_entered _ _ _ _ Hbegin) as (_ & -> & _). reflexivity.
  - destruct (opx_beginblock_entered _ _ _ _ Hbegin) as (_ & -> & _).
    unfold op_gas, true_gas.
    cbn [current_block_cost set_current_block_cost gas_left set_gas_left].
    change (instr_at (set_current_block_cost _ (set_gas_left _ state)) j)
      with (instr_at state j).
    fold b. do 3 f_equal. lia.
  - apply (sees_true_gas_of_pattern _ _ _ _ i j next op_sstore_pattern Hbegin).
  - intros Kind Static.
    apply (sees_true_gas_of_pattern _ _ _ _ i j next (op_call_pattern Kind Static) Hbegin).
  - intros Kind.
    apply (sees_true_gas_of_pattern _ _ _ _ i j next (op_create_pattern Kind) Hbegin).
Qed.

(** ** Termination of the loop *)

(** More iterations than needed change nothing. *)
Lemma run_more_fuel (fuel : nat) :
  forall (more : nat) (next : option nat) (s final : execution_state),
    run fuel next s = Some final -> run (fuel + more) next s = Some final.
Proof.
  induction fuel as [| fuel IH]; intros more next s final Hrun.
  - destruct next as [p |]; cbn [run] in Hrun; [ discriminate | ].
    destruct (0 + more)%nat; exact Hrun.
  - destruct next as [p |]; cbn [run Nat.add] in *; [ | exact Hrun ].
    destruct (nth_error (instrs (analysis s)) p) as [i |]; [ | discriminate ].
    destruct (invoke (fn i) p s) as [next' s']. apply IH, Hrun.
Qed.

Section Progress.

Hypothesis contracts : step_contracts.

Lemma advances_next (p : nat) (s s' : execution_state) :
  analysis s' = analysis s -> 0 <= gas_left s' <= gas_left s ->
  advances p s (Some (S p), s').
Proof.
  intros Ha Hg p' Hp'. cbn [fst snd] in *. injection Hp' as <-.
  split; [ exact Ha | split; [ exact Hg | left; reflexivity ] ].
Qed.

Lemma advances_halt (p : nat) (s s' : execution_state) : advances p s (None, s').
Proof. intros p' Hp'. discriminate Hp'. Qed.

Lemma correction_advances
    (handler : nat -> execution_state -> continuation)
    (operation : execution_state -> evmc_status_code * execution_state) :
  follows_correction_pattern handler operation ->
  (forall s, fst (operation s) = EVMC_SUCCESS -> keeps_frame s (snd (operation s))) ->
  forall p s, 0 <= gas_left s -> advances p s (handler p s).
Proof.
  intros Hpattern Hkeeps p s Hgas.
  specialize (Hpattern p s). cbv zeta in Hpattern.
  set (correction := Z.of_N (current_block_cost s) - number (arg (instr_at s p))) in *.
  set (credited := set_gas_left (gas_left s + correction) s) in *.
  destruct Hpattern as (Hfail & Hoog & Hnext).
  destruct (status_eqb (fst (operation credited)) EVMC_SUCCESS) eqn:E.
  - apply status_eqb_eq in E. destruct (Hkeeps credited E) as [Ha Hle].
    assert (Hcredit : gas_left credited = gas_left s + correction) by reflexivity.
    assert (Hanalysis : analysis credited = analysis s) by reflexivity.
    destruct (Z.lt_ge_cases (gas_left (snd (operation credited)) - correction) 0) as [L | G].
    + rewrite (Hoog E L). apply advances_halt.
    + rewrite (Hnext E G). apply advances_next.
      * cbn [analysis set_gas_left]. congruence.
      * cbn [gas_left set_gas_left]. lia.
  - apply status_eqb_neq in E. rewrite (Hfail E). apply advances_halt.
Qed.

Lemma status_advances
    (operation : execution_state -> evmc_status_code * execution_state)
    (p : nat) (s : execution_state) :
  (fst (operation s) = EVMC_SUCCESS ->
     keeps_frame s (snd (operation s)) /\ solvent s (snd (operation s))) ->
  0 <= gas_left s ->
  advances p s
    (let (status_code, s') := operation s in
     if negb (status_eqb status_code EVMC_SUCCESS) then exit s' status_code
     else (Some (S p), s')).
Proof.
  intros Hop Hgas. destruct (operation s) as [c s']. cbn [fst snd] in Hop.
  destruct (status_eqb c EVMC_SUCCESS) eqn:E; cbn [negb].
  - apply status_eqb_eq in E. destruct (Hop E) as [[Ha Hle] Hsolvent].
    apply advances_next; [ exact Ha | ]. specialize (Hsolvent Hgas). lia.
  - apply advances_halt.
Qed.

Lemma op_jump_advances (p : nat) (s : execution_state) :
  0 <= gas_left s -> advances p s (op_jump p s).
Proof.
  intros Hgas. unfold op_jump, stack_pop.
  change (analysis (set_stack (tl (stack s)) s)) with (analysis s).
  destruct (Z.ltb_spec int_max (stack_at s 0)); cbn [orb]; [ apply advances_halt | ].
  destruct (Z.ltb_spec (find_jumpdest (analysis s) (stack_at s 0)) 0);
    [ apply advances_halt | ].
  intros p' Hp'. cbn [fst snd] in *. injection Hp' as <-.
  split; [ reflexivity | split; [ cbn; lia | ] ].
  right. exists (stack_at s 0). split; [ assumption | reflexivity ].
Qed.

Lemma bigint_advances (f : instruction_exec_fn) (size : Z) (p : nat) (s : execution_state) :
  In (f, size) bigint_handlers -> 0 <= gas_left s -> advances p s (invoke f p s).
Proof.
  intros Hin Hgas.
  assert (Hgen : forall (bytes : execution_state -> Z -> Z),
             advances p s
               (let (ok, s') := check_memory (set_stack (tl (stack s)) s)
                                  (max_memory_index_of (stack_at s 0)) size in
                if negb ok then (None, s')
                else (Some (S p), set_bytes (bytes s') s'))).
  { intros bytes.
    destruct (check_memory_keeps contracts (set_stack (tl (stack s)) s)
                (max_memory_index_of (stack_at s 0)) size) as [[Ha Hle] Hsolvent].
    destruct (check_memory (set_stack (tl (stack s)) s) _ size) as [[|] s'];
      cbn [fst snd negb] in *.
    - apply advances_next; [ exact Ha | ].
      specialize (Hsolvent eq_refl Hgas). cbn [gas_left set_stack] in Hle.
      cbn [set_bytes gas_left set_memory]. lia.
    - apply advances_halt. }
  cbn [In bigint_handlers] in Hin.
  destruct Hin as [H | [H | [H | []]]]; inversion H; subst f size; cbn [invoke].
  - unfold op_addmod384, stack_pop.
    apply (Hgen (fun s' => addmod384_64bitlimbs (mem_byte (memory s')) _ _ _ _)).
  - unfold op_submod384, stack_pop. cbn [snd].
    apply (Hgen (fun s' => subtractmod384_64bitlimbs (mem_byte (memory s')) _ _ _ _)).
  - unfold op_mulmodmont384, stack_pop. cbn [snd].
    apply (Hgen (fun s' => store_limbs (mem_byte (memory s')) _
                             (if USE_ASM then mulx_mont_384 _ _ _ _
                              else montmul384_64bitlimbs _ _ _ _))).
Qed.

(** Every handler either halts or advances. *)
Lemma invoke_advances (f : instruction_exec_fn) (p : nat) (s : execution_state) :
  0 <= gas_left s -> advances p s (invoke f p s).
Proof.
  intro Hgas. destruct f; cbn [invoke].
  - unfold op. destruct (instr_body f) as [g | g | g] eqn:Hbody.
    + apply advances_next; [ reflexivity | cbn; lia ].
    + destruct (on_state_keeps contracts f g s Hbody) as [[Ha Hle] Hsolvent].
      apply advances_next; [ exact Ha | ]. specialize (Hsolvent Hgas). lia.
    + apply status_advances; [ | exact Hgas ].
      apply (with_status_keeps contracts f g s Hbody).
  - apply advances_halt.
  - apply (correction_advances _ _ op_sstore_pattern (sstore_keeps contracts)), Hgas.
  - apply op_jump_advances, Hgas.
  - unfold op_jumpi. destruct (negb (stack_at s 1 =? 0)).
    + pose proof (op_jump_advances p s Hgas) as Hj.
      destruct (op_jump p s) as [next s']. intros p' Hp'. cbn [fst snd] in *.
      apply (Hj p' Hp').
    + apply advances_next; [ reflexivity | cbn; lia ].
  - apply advances_next; [ reflexivity | cbn; lia ].
  - apply advances_next; [ reflexivity | cbn; lia ].
  - apply advances_next; [ reflexivity | cbn; lia ].
  - apply advances_next; [ reflexivity | cbn; lia ].
  - unfold op_log.
    apply (status_advances (fun s => log s (LogOp - OP_LOG0))); [ | exact Hgas ].
    apply (log_keeps contracts).
  - apply advances_halt.
  - unfold op_return. destruct (check_memory s (stack_at s 0) (stack_at s 1)) as [[|] s'];
      apply advances_halt.
  - apply (correction_advances _ _ (op_call_pattern Kind Static)
             (call_keeps contracts Kind Static)), Hgas.
  - apply (correction_advances _ _ (op_create_pattern Kind) (create_keeps contracts Kind)),
      Hgas.
  - apply advances_halt.
  - unfold op_selfdestruct. destruct (selfdestruct s). apply advances_halt.
  - unfold opx_beginblock. cbn [gas_left set_gas_left].
    destruct (Z.ltb_spec (gas_left s - Z.of_N (gas_cost (block (arg (instr_at s p))))) 0);
      [ apply advances_halt | ].
    destruct (stack_size _ <? _); [ apply advances_halt | ].
    destruct (_ >? evm_stack_limit); [ apply advances_halt | ].
    apply advances_next; [ reflexivity | cbn; lia ].
  - apply (bigint_advances Fn.op_addmod384 48); [ cbn; auto | exact Hgas ].
  - apply (bigint_advances Fn.op_submod384 48); [ cbn; auto | exact Hgas ].
  - apply (bigint_advances Fn.op_mulmodmont384 56); [ cbn; auto | exact Hgas ].
Qed.

Lemma continuing_does_not_halt (f : instruction_exec_fn) (p p' : nat)
    (s : execution_state) :
  fst (invoke f p s) = Some p' -> always_halts f = false.
Proof.
  destruct f; cbn [invoke always_halts]; try reflexivity.
  - discriminate.
  - discriminate.
  - unfold op_return. destruct (check_memory s (stack_at s 0) (stack_at s 1)) as [[|] s'];
      discriminate.
  - discriminate.
  - unfold op_selfdestruct. destruct (selfdestruct s). discriminate.
Qed.

End Progress.

Lemma run_step (fuel p : nat) (s : execution_state) :
  run (S fuel) (Some p) s
  = match nth_error (instrs (analysis s)) p with
    | Some i => let (next, s') := invoke (fn i) p s in run fuel next s'
    | None => None
    end.
Proof. reflexivity. Qed.

Lemma run_halted (fuel : nat) (s : execution_state) : run fuel None s = Some s.
Proof. destruct fuel; reflexivity. Qed.

Lemma run_terminates_from (a : code_analysis) :
  step_contracts -> well_formed_stream a ->
  forall (n p : nat) (s : execution_state),
    analysis s = a ->
    (p < length (instrs a))%nat ->
    0 <= gas_left s ->
    gas_left s * (Z.of_nat (length (instrs a)) + 1)
      + (Z.of_nat (length (instrs a)) - Z.of_nat p) <= Z.of_nat n ->
    exists final, run (2 * n) (Some p) s = Some final.
Proof.
  intros contracts Hwf. set (L := length (instrs a)).
  induction n as [| n IH]; intros p s Ha Hp Hgas Hmeasure.
  - exfalso. nia.
  - replace (2 * S n)%nat with (S (S (2 * n))) by lia. rewrite run_step, Ha.
    destruct (nth_error (instrs a) p) as [i |] eqn:Hnth;
      [ | apply nth_error_None in Hnth; fold L in Hnth; lia ].
    pose proof (invoke_advances contracts (fn i) p s Hgas) as Hadv.
    pose proof (continuing_does_not_halt (fn i) p) as Hcont.
    destruct (invoke (fn i) p s) as [[p' |] s'] eqn:Hinv;
      [ | exists s'; apply run_halted ].
    destruct (Hadv p' eq_refl) as (Ha' & Hg' & Hcase). cbn [snd] in Ha', Hg'.
    specialize (Hcont p' s). rewrite Hinv in Hcont. specialize (Hcont eq_refl).
    assert (Hlast : forall q j, nth_error (instrs a) q = Some j ->
                      always_halts (fn j) = false -> (S q < L)%nat).
    { intros q j Hq Hj.
      assert (q < L)%nat by (apply nth_error_Some; congruence).
      destruct (Nat.eq_dec (S q) L) as [E | N]; [ | lia ].
      pose proof (stream_ends_halting a Hwf q j Hq E). congruence. }
    destruct Hcase as [-> | (dst & Hdst & ->)].
    + destruct (IH (S p) s') as [final Hfinal];
        [ congruence | apply (Hlast p i Hnth Hcont) | lia | nia | ].
      exists final. replace (S (2 * n)) with (2 * n + 1)%nat by lia.
      apply run_more_fuel, Hfinal.
    + rewrite Ha in *.
      destruct (jump_targets a Hwf dst Hdst) as (i' & Hnth' & Hfn' & Hcost).
      set (t := Z.to_nat (find_jumpdest a dst)) in *.
      rewrite run_step, Ha', Hnth', Hfn'. cbn [invoke].
      destruct (opx_beginblock t s') as [[p'' |] s''] eqn:Hbb;
        [ | exists s''; apply run_halted ].
      destruct (opx_beginblock_entered _ _ _ _ Hbb) as (-> & Hs'' & Hpaid).
      assert (Hat : instr_at s' t = i').
      { unfold instr_at. rewrite Ha'. apply nth_error_nth, Hnth'. }
      rewrite Hat in Hs'', Hpaid.
      assert (Hnot : always_halts (fn i') = false) by (rewrite Hfn'; reflexivity).
      pose proof (Hlast t i' Hnth' Hnot) as Ht.
      apply (IH (S t) s'').
      * rewrite Hs''. cbn [analysis set_current_block_cost set_gas_left]. exact Ha'.
      * exact Ht.
      * rewrite Hs''. cbn [gas_left set_current_block_cost set_gas_left]. exact Hpaid.
      * rewrite Hs''. cbn [gas_left set_current_block_cost set_gas_left]. nia.
Qed.

(** X6.  The loop of [execute] ends.  When the collaborators leave the
    analysis alone, add no gas and do not report success on overdrawn gas,
    the last instruction of the stream halts and every jump destination is
    a begin-block instruction of a block that costs gas, then for a message
    with a non-negative amount [g] of gas over a stream of [n]
    instructions, [2 * (g * (n + 1) + n)] iterations suffice for [execute]
    to return a result, and more iterations return the same result. *)
Theorem execute_terminates :
  forall (fresh : execution_state) (h : HostContext) (r : evmc_revision)
         (message : evmc_message) (a : code_analysis) (bytes : list Z),
    step_contracts ->
    well_formed_stream a ->
    0 <= gas message ->
    exists result : evmc_result,
      forall more : nat,
        execute (iteration_bound (gas message) (length (instrs a)) + more)
          fresh h r message a bytes = Some result.
Proof.
  intros fresh h r message a bytes contracts Hwf Hgas.
  assert (Hlen : (0 < length (instrs a))%nat).
  { pose proof (stream_not_empty a Hwf). destruct (instrs a); [ contradiction | cbn; lia ]. }
  destruct (run_terminates_from a contracts Hwf
              (Z.to_nat (gas message * (Z.of_nat (length (instrs a)) + 1)
                         + Z.of_nat (length (instrs a))))
              0%nat (initial_state fresh h r message a bytes) eq_refl Hlen Hgas)
    as [final Hfinal].
  { cbn [gas_left initial_state]. nia. }
  eexists. intro more. unfold execute, final_state, iteration_bound.
  rewrite (run_more_fuel _ more _ _ _ Hfinal). reflexivity.
Qed.

(** ** Gas reported by [execute] *)

Lemma opx_beginblock_settles (limit : Z) (p : nat) (s s' : execution_state) :
  opx_beginblock p s = (None, s') -> settled limit s'.
Proof.
  unfold opx_beginblock, exit, settled. cbn [gas_left set_gas_left].
  destruct (_ <? 0);
    [ intro H; injection H as <-; cbn [status set_status]; intros [E | E]; discriminate E | ].
  destruct (stack_size _ <? _);
    [ intro H; injection H as <-; cbn [status set_status]; intros [E | E]; discriminate E | ].
  destruct (_ >? evm_stack_limit);
    [ intro H; injection H as <-; cbn [status set_status]; intros [E | E]; discriminate E | ].
  discriminate.
Qed.

Section GasInvariant.

Variable limit : Z.
Hypothesis contracts : step_contracts.
Hypothesis halting : halt_contracts.

Lemma fault_settles (s : execution_state) (c : evmc_status_code) :
  c <> EVMC_SUCCESS -> c <> EVMC_REVERT -> settled limit (set_status c s).
Proof.
  intros Hs Hr. unfold settled. cbn [status set_status]. intros [E | E]; congruence.
Qed.

Lemma halt_in_budget (s : execution_state) (c : evmc_status_code) :
  0 <= gas_left s <= limit -> settled limit (set_status c s).
Proof. intros Hg _. exact Hg. Qed.

(** A handler built on the correction pattern halts with a failure of its
    operation or with OutOfGas. *)
Lemma correction_settles
    (handler : nat -> execution_state -> continuation)
    (operation : execution_state -> evmc_status_code * execution_state) :
  follows_correction_pattern handler operation ->
  (forall s, fst (operation s) <> EVMC_REVERT) ->
  forall p s s', handler p s = (None, s') -> settled limit s'.
Proof.
  intros Hpattern Hnr p s s' Hhalt.
  specialize (Hpattern p s). cbv zeta in Hpattern.
  set (correction := Z.of_N (current_block_cost s) - number (arg (instr_at s p))) in *.
  set (credited := set_gas_left (gas_left s + correction) s) in *.
  destruct Hpattern as (Hfail & Hoog & Hnext).
  destruct (status_eqb (fst (operation credited)) EVMC_SUCCESS) eqn:E.
  - apply status_eqb_eq in E.
    destruct (Z.lt_ge_cases (gas_left (snd (operation credited)) - correction) 0) as [L | G].
    + rewrite (Hoog E L) in Hhalt. injection Hhalt as <-.
      apply fault_settles; discriminate.
    + rewrite (Hnext E G) in Hhalt. discriminate Hhalt.
  - apply status_eqb_neq in E. rewrite (Hfail E) in Hhalt. injection Hhalt as <-.
    apply fault_settles; [ exact E | apply Hnr ].
Qed.

Lemma status_settles
    (operation : execution_state -> evmc_status_code * execution_state)
    (p : nat) (s s' : execution_state) :
  fst (operation s) <> EVMC_REVERT ->
  (let (status_code, s1) := operation s in
   if negb (status_eqb status_code EVMC_SUCCESS) then exit s1 status_code
   else (Some (S p), s1)) = (None, s') ->
  settled limit s'.
Proof.
  intros Hnr. destruct (operation s) as [c s1]. cbn [fst] in Hnr.
  destruct (status_eqb c EVMC_SUCCESS) eqn:E; cbn [negb]; [ discriminate | ].
  apply status_eqb_neq in E. unfold exit. intro H. injection H as <-.
  apply fault_settles; assumption.
Qed.

Lemma op_jump_settles (p : nat) (s s' : execution_state) :
  op_jump p s = (None, s') -> status s' = EVMC_BAD_JUMP_DESTINATION.
Proof.
  unfold op_jump, stack_pop, exit.
  destruct (_ || _); [ | discriminate ].
  intro H. injection H as <-. reflexivity.
Qed.

(** A handler that halts through [exit] leaves a settled frame. *)
Lemma invoke_settles (f : instruction_exec_fn) (p : nat) (s s' : execution_state) :
  halts_through_exit f = true ->
  0 <= gas_left s <= limit ->
  invoke f p s = (None, s') -> settled limit s'.
Proof.
  intros Hexit Hgas. destruct f; cbn [invoke]; cbn [halts_through_exit] in Hexit;
    try discriminate Hexit.
  - unfold op. destruct (instr_body f) as [g | g | g] eqn:Hbody; try discriminate.
    apply status_settles. apply (with_status_halts halting f g s Hbody).
  - unfold op_stop, exit. intro H. injection H as <-. apply halt_in_budget, Hgas.
  - apply (correction_settles _ _ op_sstore_pattern (sstore_halts halting)).
  - intro H. apply op_jump_settles in H. unfold settled. rewrite H.
    intros [E | E]; discriminate E.
  - unfold op_jumpi. destruct (negb (stack_at s 1 =? 0)); [ | discriminate ].
    destruct (op_jump p s) as [[next |] s1] eqn:Hj; [ discriminate | ].
    apply op_jump_settles in Hj. intro H. injection H as <-.
    unfold settled, stack_pop. cbn [snd status set_stack]. rewrite Hj.
    intros [E | E]; discriminate E.
  - discriminate.
  - discriminate.
  - discriminate.
  - discriminate.
  - unfold op_log. apply (status_settles (fun s => log s (LogOp - OP_LOG0))).
    apply (log_halts halting).
  - unfold op_invalid, exit. intro H. injection H as <-. apply fault_settles; discriminate.
  - unfold op_return.
    destruct (check_memory_keeps contracts s (stack_at s 0) (stack_at s 1))
      as [[_ Hle] Hsolvent].
    destruct (check_memory s (stack_at s 0) (stack_at s 1)) as [[|] s1];
      cbn [fst snd negb] in *; unfold exit; intro H; injection H as <-.
    + apply halt_in_budget. unfold solvent in Hsolvent.
      specialize (Hsolvent eq_refl ltac:(lia)).
      destruct (negb (to_size_t (stack_at s 1) =? 0));
        cbn [gas_left set_output_size set_output_offset]; lia.
    + apply fault_settles; discriminate.
  - apply (correction_settles _ _ (op_call_pattern Kind Static)
             (call_halts halting Kind Static)).
  - apply (correction_settles _ _ (op_create_pattern Kind) (create_halts halting Kind)).
  - unfold op_undefined, exit. intro H. injection H as <-. apply fault_settles; discriminate.
  - unfold op_selfdestruct, exit.
    pose proof (selfdestruct_halts halting s) as Hsd.
    destruct (selfdestruct s) as [c s1]. cbn [fst snd] in Hsd.
    intro H. injection H as <-. unfold settled. cbn [status set_status gas_left].
    intro Hc. specialize (Hsd Hc ltac:(lia)). lia.
  - apply opx_beginblock_settles.
Qed.

(** Over a stream whose handlers all halt through [exit], a frame that
    runs with its gas within the budget ends settled. *)
Lemma run_settles (a : code_analysis) :
  (forall i, In i (instrs a) -> halts_through_exit (fn i) = true) ->
  forall (fuel p : nat) (s final : execution_state),
    analysis s = a ->
    0 <= gas_left s <= limit ->
    run fuel (Some p) s = Some final ->
    settled limit final.
Proof.
  intros Hstream. induction fuel as [| fuel IH]; intros p s final Ha Hgas Hrun.
  - discriminate Hrun.
  - rewrite run_step, Ha in Hrun.
    destruct (nth_error (instrs a) p) as [i |] eqn:Hnth; [ | discriminate ].
    pose proof (Hstream i (nth_error_In _ _ Hnth)) as Hexit.
    pose proof (invoke_advances contracts (fn i) p s ltac:(lia)) as Hadv.
    destruct (invoke (fn i) p s) as [[p' |] s1] eqn:Hinv.
    + destruct (Hadv p' eq_refl) as (Ha' & Hg' & _). cbn [snd] in Ha', Hg'.
      apply (IH p' s1 final); [ congruence | lia | exact Hrun ].
    + rewrite run_halted in Hrun. injection Hrun as <-.
      apply (invoke_settles (fn i) p s s1 Hexit Hgas Hinv).
Qed.

End GasInvariant.


End FurtherProperties.

(** ** The debugging printers *)

Lemma digit_value_digit (d : Z) : 0 <= d < 16 -> digit_value (digit d) = d.
Proof.
  intro Hd.
  assert (H : d = 0 \/ d = 1 \/ d = 2 \/ d = 3 \/ d = 4 \/ d = 5 \/ d = 6 \/ d = 7 \/
              d = 8 \/ d = 9 \/ d = 10 \/ d = 11 \/ d = 12 \/ d = 13 \/ d = 14 \/ d = 15)
    by lia.
  repeat (destruct H as [-> | H]; [ reflexivity | ]). subst d. reflexivity.
Qed.

Lemma fold_hex_acc (text : list ascii) :
  forall acc,
    fold_left (fun a c => 16 * a + digit_value c) text acc
    = acc * 16 ^ Z.of_nat (length text) + hex_value text.
Proof.
  unfold hex_value.
  induction text as [| c text IH]; intro acc.
  - cbn. lia.
  - cbn [fold_left length]. rewrite IH, (IH (16 * 0 + digit_value c)).
    rewrite Nat2Z.inj_succ, Z.pow_succ_r by lia. ring.
Qed.

Lemma hex_value_app (t1 t2 : list ascii) :
  hex_value (t1 ++ t2) = hex_value t1 * 16 ^ Z.of_nat (length t2) + hex_value t2.
Proof.
  unfold hex_value at 1. rewrite fold_left_app, fold_hex_acc. reflexivity.
Qed.

Lemma hex_value_zeros (n : nat) : hex_value (repeat "0"%char n) = 0.
Proof.
  induction n as [| n IH]; [ reflexivity | ].
  change (repeat "0"%char (S n)) with (["0"%char] ++ repeat "0"%char n).
  rewrite hex_value_app, IH. reflexivity.
Qed.

(** The hexadecimal digits of a number below [16 ^ k] are at most [k] and
    denote the number. *)
Lemma digits_of_hex (fuel : nat) :
  forall (k : nat) (n : Z),
    (1 <= k <= fuel)%nat -> 0 <= n < 16 ^ Z.of_nat k ->
    (length (digits_of fuel 16 n) <= k)%nat /\
    hex_value (digits_of fuel 16 n) = n.
Proof.
  induction fuel as [| fuel IH]; intros k n Hk Hn; [ lia | ].
  cbn [digits_of]. destruct (Z.ltb_spec n 16) as [Hsmall | Hbig].
  - split; [ cbn; lia | ].
    unfold hex_value. cbn [fold_left]. rewrite digit_value_digit; lia.
  - destruct k as [| [| k]]; [ lia | cbn in Hn; lia | ].
    destruct (IH (S k) (n / 16)) as [Hlen Hval]; [ lia | | ].
    { split; [ apply Z.div_pos; lia | ].
      apply Z.div_lt_upper_bound; [ lia | ].
      rewrite <- Z.pow_succ_r by lia. rewrite <- Nat2Z.inj_succ. lia. }
    split.
    + rewrite length_app. cbn [length]. lia.
    + rewrite hex_value_app, Hval. cbn [length].
      unfold hex_value at 1. cbn [fold_left].
      rewrite digit_value_digit by (apply Z.mod_pos_bound; lia).
      change (16 ^ Z.of_nat 1) with 16.
      pose proof (Z.div_mod n 16 ltac:(lia)). lia.
Qed.

(** An integer written in base 16 into a zero-filled field of [w] digits
    that can hold it. *)
Lemma insert_integer_hex_field (n : Z) (w : nat) (os : ostream) :
  base os = hex -> fill os = "0"%char -> width os = w ->
  (1 <= w <= 64)%nat -> 0 <= n < 16 ^ Z.of_nat w ->
  exists text,
    written (insert_integer n os) = written os ++ text /\
    length text = w /\ hex_value text = n /\
    base (insert_integer n os) = hex /\ fill (insert_integer n os) = "0"%char /\
    width (insert_integer n os) = 0%nat.
Proof.
  intros Hbase Hfill Hwidth Hw Hn.
  destruct (digits_of_hex 64 w n ltac:(lia) Hn) as [Hlen Hval].
  unfold insert_integer. rewrite Hbase, Hfill, Hwidth. cbn [radix written base fill width].
  eexists. split; [ reflexivity | ].
  split; [ rewrite length_app, repeat_length; lia | ].
  split; [ rewrite hex_value_app, hex_value_zeros, Hval; lia | ].
  repeat split.
Qed.

Lemma print_padded_hex_le_text (num : Z) (os : ostream) :
  0 <= num < 2 ^ 64 ->
  exists text,
    written (print_padded_hex_le num os) = written os ++ text /\
    length text = 16%nat /\ hex_value text = num /\
    base (print_padded_hex_le num os) = hex /\
    fill (print_padded_hex_le num os) = "0"%char /\
    width (print_padded_hex_le num os) = 0%nat.
Proof.
  intro Hnum. unfold print_padded_hex_le.
  apply (insert_integer_hex_field num 16
           (setfill "0"%char (setw 16 (set_base hex os))));
    try reflexivity.
  - lia.
  - change (16 ^ Z.of_nat 16) with (2 ^ 64). exact Hnum.
Qed.

Lemma limbs_value_snoc (limbs : list Z) (l : Z) :
  limbs_value (limbs ++ [l])
  = limbs_value limbs + 2 ^ (64 * Z.of_nat (length limbs)) * l.
Proof.
  induction limbs as [| x limbs IH].
  - cbn [app limbs_value length]. change (64 * Z.of_nat 0) with 0.
    rewrite Z.pow_0_r. lia.
  - cbn [app limbs_value length]. rewrite IH.
    replace (64 * Z.of_nat (S (length limbs))) with (64 + 64 * Z.of_nat (length limbs)) by lia.
    rewrite Z.pow_add_r by lia. ring.
Qed.

Lemma cells_succ (f : Z -> Z) (n : nat) : cells f (S n) = cells f n ++ [f (Z.of_nat n)].
Proof. unfold cells. rewrite seq_S, map_app. reflexivity. Qed.

Lemma cells_length (f : Z -> Z) (n : nat) : length (cells f n) = n.
Proof. unfold cells. rewrite length_map, length_seq. reflexivity. Qed.

(** The loop of [print_number] started at index [i]: [i + 1] limbs are
    written, the one at [i] first. *)
Lemma print_limbs_from_text (limbs : Z -> Z) (i : nat) :
  forall os : ostream,
    (forall k, (k <= i)%nat -> 0 <= limbs (Z.of_nat k) < 2 ^ 64) ->
    exists text,
      written (print_limbs_from limbs i os) = written os ++ text /\
      length text = (16 * S i)%nat /\
      hex_value text = limbs_value (cells limbs (S i)) /\
      hex_value (firstn 16 text) = limbs (Z.of_nat i) /\
      base (print_limbs_from limbs i os) = hex /\
      fill (print_limbs_from limbs i os) = "0"%char /\
      width (print_limbs_from limbs i os) = 0%nat.
Proof.
  induction i as [| i IH]; intros os Hrange.
  - cbn [print_limbs_from].
    destruct (print_padded_hex_le_text (limbs (Z.of_nat 0)) os (Hrange 0%nat (le_n _)))
      as (text & Hw & Hlen & Hval & Hflags).
    exists text. split; [ exact Hw | split; [ exact Hlen | ] ].
    split; [ cbn [cells map seq limbs_value]; rewrite Hval; cbn; lia | ].
    split; [ | exact Hflags ].
    rewrite firstn_all2 by lia. exact Hval.
  - cbn [print_limbs_from].
    destruct (print_padded_hex_le_text (limbs (Z.of_nat (S i))) os
                (Hrange (S i) (le_n _)))
      as (t1 & Hw1 & Hlen1 & Hval1 & _).
    destruct (IH (print_padded_hex_le (limbs (Z.of_nat (S i))) os))
      as (t2 & Hw2 & Hlen2 & Hval2 & _ & Hflags);
      [ intros k Hk; apply Hrange; lia | ].
    exists (t1 ++ t2).
    split; [ rewrite Hw2, Hw1, app_assoc; reflexivity | ].
    split; [ rewrite length_app; lia | ].
    split.
    + rewrite hex_value_app, Hval1, Hval2, Hlen2.
      rewrite (cells_succ limbs (S i)), limbs_value_snoc, cells_length.
      replace (16 ^ Z.of_nat (16 * S i)) with (2 ^ (64 * Z.of_nat (S i))).
      * ring.
      * change 16 with (2 ^ 4) at 1. rewrite <- Z.pow_mul_r by lia. f_equal. lia.
    + split; [ | exact Hflags ].
      rewrite firstn_app, Hlen1, Nat.sub_diag, firstn_O, app_nil_r.
      rewrite firstn_all2 by lia. exact Hval1.
Qed.

(** X7.  [print_number] writes a little-endian limb vector as one
    big-endian hexadecimal number: for [num_limbs] limbs (at least one) it
    appends exactly [16 * num_limbs] digits, which read back as the value
    of the vector, and it leaves the stream in base 16 with fill character
    ['0']. *)
Theorem print_number_round_trip :
  forall (limbs : Z -> Z) (num_limbs : Z) (os : ostream),
    1 <= num_limbs < 2 ^ 64 ->
    (forall i, 0 <= i < num_limbs -> 0 <= limbs i < 2 ^ 64) ->
    exists text,
      written (print_number limbs num_limbs os) = written os ++ text /\
      length text = (16 * Z.to_nat num_limbs)%nat /\
      hex_value text = limbs_value (cells limbs (Z.to_nat num_limbs)) /\
      base (print_number limbs num_limbs os) = hex /\
      fill (print_number limbs num_limbs os) = "0"%char /\
      width (print_number limbs num_limbs os) = 0%nat.
Proof.
  intros limbs num_limbs os Hn Hrange. unfold print_number.
  rewrite Z.mod_small by lia.
  destruct (print_limbs_from_text limbs (Z.to_nat (num_limbs - 1)) os)
    as (text & Hw & Hlen & Hval & _ & Hflags).
  { intros k Hk. apply Hrange. lia. }
  replace (S (Z.to_nat (num_limbs - 1))) with (Z.to_nat num_limbs) in Hlen, Hval by lia.
  exists text. split; [ exact Hw | split; [ exact Hlen | split; [ exact Hval | exact Hflags ] ] ].
Qed.

Lemma fold_bytes_acc (bytes : list Z) :
  forall acc,
    fold_left (fun a b => 256 * a + b) bytes acc
    = acc * 256 ^ Z.of_nat (length bytes) + big_endian_value bytes.
Proof.
  unfold big_endian_value.
  induction bytes as [| b bytes IH]; intro acc.
  - cbn. lia.
  - cbn [fold_left length]. rewrite IH, (IH (256 * 0 + b)).
    rewrite Nat2Z.inj_succ, Z.pow_succ_r by lia. ring.
Qed.

Lemma big_endian_value_cons (b : Z) (bytes : list Z) :
  big_endian_value (b :: bytes)
  = b * 256 ^ Z.of_nat (length bytes) + big_endian_value bytes.
Proof.
  unfold big_endian_value at 1. cbn [fold_left]. rewrite fold_bytes_acc. ring.
Qed.

Lemma cells_cons (f : Z -> Z) (n : nat) :
  cells f (S n) = f 0 :: cells (fun k => f (1 + k)) n.
Proof.
  unfold cells. cbn [seq map]. f_equal.
  rewrite <- seq_shift, map_map. apply map_ext. intro k. f_equal. lia.
Qed.

(** The loop of the byte printers: two digits per byte, in index order. *)
Lemma print_bytes_loop_text (bytes : Z -> Z) (n : nat) :
  forall (i : Z) (os : ostream),
    base os = hex ->
    (forall k, (k < n)%nat -> 0 <= bytes (i + Z.of_nat k) < 256) ->
    exists text,
      written (print_bytes_loop bytes i n os) = written os ++ text /\
      length text = (2 * n)%nat /\
      hex_value text = big_endian_value (cells (fun k => bytes (i + k)) n) /\
      base (print_bytes_loop bytes i n os) = hex /\
      ((1 <= n)%nat \/ fill os = "0"%char ->
         fill (print_bytes_loop bytes i n os) = "0"%char) /\
      ((1 <= n)%nat \/ width os = 0%nat ->
         width (print_bytes_loop bytes i n os) = 0%nat).
Proof.
  induction n as [| n IH]; intros i os Hbase Hrange.
  - exists []. cbn [print_bytes_loop]. rewrite app_nil_r.
    repeat split; try assumption; intros [H | H]; try exact H; lia.
  - cbn [print_bytes_loop].
    destruct (insert_integer_hex_field (bytes i) 2 (setfill "0"%char (setw 2 os)))
      as (t1 & Hw1 & Hlen1 & Hval1 & Hb1 & Hf1 & Hwd1);
      try reflexivity; try assumption; [ lia | | ].
    { change (16 ^ Z.of_nat 2) with 256.
      specialize (Hrange 0%nat ltac:(lia)). rewrite Z.add_0_r in Hrange. exact Hrange. }
    destruct (IH (i + 1) (insert_integer (bytes i) (setfill "0"%char (setw 2 os))) Hb1)
      as (t2 & Hw2 & Hlen2 & Hval2 & Hb2 & Hf2 & Hwd2).
    { intros k Hk. specialize (Hrange (S k) ltac:(lia)).
      replace (i + 1 + Z.of_nat k) with (i + Z.of_nat (S k)) by lia. exact Hrange. }
    exists (t1 ++ t2).
    split; [ rewrite Hw2, Hw1; cbn [written setfill setw]; rewrite app_assoc; reflexivity | ].
    split; [ rewrite length_app; lia | ].
    split.
    + rewrite hex_value_app, Hval1, Hval2, Hlen2, cells_cons, big_endian_value_cons.
      rewrite cells_length, Z.add_0_r.
      replace (16 ^ Z.of_nat (2 * n)) with (256 ^ Z.of_nat n).
      * f_equal. f_equal. unfold cells. apply map_ext. intro k. f_equal. lia.
      * change 256 with (16 ^ 2). rewrite <- Z.pow_mul_r by lia. f_equal. lia.
    + split; [ exact Hb2 | split; intros _ ].
      * apply Hf2. right. exact Hf1.
      * apply Hwd2. right. exact Hwd1.
Qed.

(** X9.  [print_bytes384] and [print_bytes256] append two hexadecimal
    digits per byte, in the order of the bytes in memory, and a newline:
    the 96 (resp. 64) digits read back as the number whose most
    significant byte is the first byte.  Afterwards the stream is in base
    10 whatever its base was before, and its fill character is ['0']. *)
Theorem print_bytes_round_trip :
  forall (bytes : Z -> Z) (os : ostream),
    (forall k, 0 <= k < 48 -> 0 <= bytes k < 256) ->
    (exists text,
       written (print_bytes384 bytes os) = written os ++ text ++ ["010"%char] /\
       length text = 96%nat /\
       hex_value text = big_endian_value (cells bytes 48) /\
       base (print_bytes384 bytes os) = dec /\
       fill (print_bytes384 bytes os) = "0"%char) /\
    (exists text,
       written (print_bytes256 bytes os) = written os ++ text ++ ["010"%char] /\
       length text = 64%nat /\
       hex_value text = big_endian_value (cells bytes 32) /\
       base (print_bytes256 bytes os) = dec /\
       fill (print_bytes256 bytes os) = "0"%char).
Proof.
  intros bytes os Hrange.
  assert (Hloop : forall n : nat,
             (n <= 48)%nat ->
             exists text,
               written (endl (set_base dec (print_bytes_loop bytes 0 n (set_base hex os))))
               = written os ++ text ++ ["010"%char] /\
               length text = (2 * n)%nat /\
               hex_value text = big_endian_value (cells bytes n) /\
               base (endl (set_base dec (print_bytes_loop bytes 0 n (set_base hex os)))) = dec /\
               ((1 <= n)%nat ->
                fill (endl (set_base dec (print_bytes_loop bytes 0 n (set_base hex os))))
                = "0"%char)).
  { intros n Hn.
    destruct (print_bytes_loop_text bytes n 0 (set_base hex os) eq_refl)
      as (text & Hw & Hlen & Hval & _ & Hfill & _).
    { intros k Hk. apply Hrange. lia. }
    exists text. cbn [written endl set_base base fill].
    split; [ rewrite Hw; cbn [written set_base]; rewrite app_assoc; reflexivity | ].
    split; [ exact Hlen | ].
    split; [ rewrite Hval; f_equal | ].
    split; [ reflexivity | ].
    intro H1. apply Hfill. left. exact H1. }
  split.
  - destruct (Hloop 48%nat (le_n _)) as (text & Hw & Hlen & Hval & Hbase & Hfill).
    exists text. repeat split; try assumption; try (apply Hfill; lia).
  - destruct (Hloop 32%nat ltac:(lia)) as (text & Hw & Hlen & Hval & Hbase & Hfill).
    exists text. repeat split; try assumption; try (apply Hfill; lia).
Qed.

(** * The statements on concrete frames *)

(** The reference environment meets the contracts asked of the
    collaborators. *)
Lemma reference_charge_keeps {HostContext : Type} (cost : Z) (s : @execution_state HostContext) :
  0 <= cost ->
  fst (reference_charge cost s) = EVMC_SUCCESS ->
  keeps_frame s (snd (reference_charge cost s)) /\ solvent s (snd (reference_charge cost s)).
Proof.
  intros Hcost. unfold reference_charge, keeps_frame, solvent. cbv zeta.
  cbn [gas_left set_gas_left].
  destruct (Z.ltb_spec (gas_left s - cost) 0); cbn [fst snd gas_left set_gas_left analysis].
  - intro E. discriminate E.
  - intros _. repeat split; lia.
Qed.

Lemma reference_step_contracts {HostContext : Type} (limit : Z) :
  @step_contracts HostContext (reference_collaborators limit).
Proof.
  constructor; cbn [check_memory instr_body sstore log call create
                    reference_collaborators].
  - intros s offset n. unfold reference_check_memory, keeps_frame, solvent.
    destruct (offset + n <=? mem_size (memory s)); [ cbn; repeat split; lia | ].
    destruct (offset + n <=? limit); cbn; repeat split; lia.
  - intros name f s H. discriminate H.
  - intros name f s H. discriminate H.
  - intros s n. apply reference_charge_keeps. lia.
  - intros s H. apply reference_charge_keeps; [ lia | exact H ].
  - intros Kind Static s H. apply reference_charge_keeps; [ lia | exact H ].
  - intros Kind s H. apply reference_charge_keeps; [ lia | exact H ].
Qed.

Lemma reference_charge_status {HostContext : Type} (cost : Z)
    (s : @execution_state HostContext) :
  fst (reference_charge cost s) <> EVMC_REVERT.
Proof.
  unfold reference_charge. cbv zeta.
  destruct (gas_left (set_gas_left (gas_left s - cost) s) <? 0); discriminate.
Qed.

Lemma reference_halt_contracts {HostContext : Type} (limit : Z) :
  @halt_contracts HostContext (reference_collaborators limit).
Proof.
  constructor; cbn [instr_body sstore log call create selfdestruct reference_collaborators].
  - intros name f s H. discriminate H.
  - intros s n. apply reference_charge_status.
  - intros s. apply reference_charge_status.
  - intros Kind Static s. apply reference_charge_status.
  - intros Kind s. apply reference_charge_status.
  - intros s _ Hgas. unfold reference_charge. cbv zeta. cbn [gas_left set_gas_left].
    destruct (gas_left s - 0 <? 0); cbn [snd gas_left set_gas_left]; lia.
Qed.

Lemma opx_beginblock_contract_witness :
  opx_beginblock 0 (sample_state 100 [] empty_memory)
  = (Some 1%nat,
     set_current_block_cost 11%N (set_gas_left 89 (sample_state 100 [] empty_memory))).
Proof.
  apply (opx_beginblock_contract
           {| gas_cost := 11; stack_req := 0; stack_max_growth := 1 |}
           (sample_state 100 [] empty_memory) 0 eq_refl); cbn; lia.
Defined.

Lemma jump_contract_witness :
  op_jump 2 (sample_state 89 [3] empty_memory)
  = (Some 3%nat, set_stack [] (sample_state 89 [3] empty_memory)).
Proof.
  apply (jump_contract (sample_state 89 [3] empty_memory) 2 3 [] eq_refl).
  intros [H | H]; vm_compute in H; discriminate H.
Defined.

Lemma bigint_bounds_failure_keeps_status_witness :
  let state := sample_state 50 [packed_offsets 160 64 112 0] empty_memory in
  invoke (collaborators := reference_collaborators 100) Fn.op_addmod384 5 state
    = (None, set_stack [] state) /\
  run (collaborators := reference_collaborators 100) 1 (Some 5%nat) state
    = Some (set_stack [] state) /\
  status (set_stack [] state) = status state.
Proof.
  apply (bigint_bounds_failure_keeps_status
           (collaborators := reference_collaborators 100)
           Fn.op_addmod384 48
           (sample_state 50 [packed_offsets 160 64 112 0] empty_memory)
           (set_stack [] (sample_state 50 [packed_offsets 160 64 112 0] empty_memory))
           5 {| fn := Fn.op_addmod384; arg := in_number 0 |}
           (packed_offsets 160 64 112 0) [] 0).
  - cbn. auto.
  - intros s offset n. cbn [check_memory reference_collaborators].
    unfold reference_check_memory.
    destruct (offset + n <=? mem_size (memory s)); [ reflexivity | ].
    destruct (offset + n <=? 100); reflexivity.
  - reflexivity.
  - reflexivity.
  - reflexivity.
  - reflexivity.
Defined.


(** C5, as worded, fails: with the modulus 3 at offset 0 and the operands
    5 and 5 at offsets 64 and 112, ADDMOD384 leaves 7 at offset 160, not
    [(5 + 5) mod 3 = 1]. *)
Lemma addmod384_as_claimed_counterexample :
  ~ @addmod384_as_claimed unit (reference_collaborators 1024).
Proof.
  intro Hclaim.
  pose proof (Hclaim
                (sample_state 50 [packed_offsets 160 64 112 0] (sample_memory 3 5 5))
                (snd (reference_check_memory 1024
                        (sample_state 50 [] (sample_memory 3 5 5)) 160 48))
                5%nat (packed_offsets 160 64 112 0) [] eq_refl eq_refl) as H.
  vm_compute in H. discriminate H.
Qed.

Lemma addmod384_reduces_sum_witness :
  let state := sample_state 50 [packed_offsets 160 64 112 0] (sample_memory 7 5 6) in
  let final := op_addmod384 (collaborators := reference_collaborators 1024) 5 state in
  fst final = Some 6%nat /\
  load_le (mem_byte (memory (snd final))) 160 48 = (5 + 6) mod 7.
Proof.
  destruct (addmod384_reduces_sum
              (collaborators := reference_collaborators 1024)
              (sample_state 50 [packed_offsets 160 64 112 0] (sample_memory 7 5 6))
              (snd (reference_check_memory 1024
                      (sample_state 50 [] (sample_memory 7 5 6)) 160 48))
              5%nat (packed_offsets 160 64 112 0) [] eq_refl eq_refl)
    as (Hnext & _ & Hsum).
  - vm_compute. reflexivity.
  - split; [ exact Hnext | exact (Hsum eq_refl) ].
Defined.

(** C6: the inverse of MULMODMONT384 is not always read at the modulus
    offset plus 48.  With the modulus at offset [0xFFFFFFE0] the bounds
    check can succeed (the buffer then exceeds 4 GiB), and the handler
    reads the inverse from offset 16: the index [mod_offset + 48] is
    computed in 32 bits.  Here the buffer holds [2 ^ 32 + 32] bytes, the
    cell at 16 holds 7 and the cell at [0xFFFFFFE0 + 48] holds 9; the
    kernel is handed 7. *)
Theorem mulmodmont384_inverse_offset_wraps :
  let mod_offset := 0xFFFFFFE0 in
  let w := packed_offsets 64 0 0 mod_offset in
  let m := {| mem_size := 2 ^ 32 + 32;
              mem_byte := fun i => if i =? 16 then 7
                                   else if i =? mod_offset + 48 then 9 else 0 |} in
  let state := sample_state 50 [w] m in
  let final := op_mulmodmont384 (collaborators := reference_collaborators (2 ^ 32 + 32))
                 0 state in
  mod_offset_of w = mod_offset /\
  out_offset_of w = 64 /\
  fst (reference_check_memory (2 ^ 32 + 32) (sample_state 50 [] m)
         (max_memory_index_of w) 56) = true /\
  fst final = Some 1%nat /\
  inv_offset mod_offset = 16 /\
  load_u64 (mem_byte m) (mod_offset + 48) = 9 /\
  load_u64 (mem_byte m) (inv_offset mod_offset) = 7 /\
  load_limbs (mem_byte (memory (snd final))) 64 = inverse_probe [] [] [] 7.
Proof.
  vm_compute. repeat split; reflexivity.
Qed.

(** C8, as worded, fails: RETURN with offset 5 and size 40 on the stack
    passes the bounds check and halts with both words still on the stack;
    nothing is popped. *)
Lemma return_as_claimed_counterexample :
  ~ @return_as_claimed unit (reference_collaborators 1024).
Proof.
  intro Hclaim.
  destruct (Hclaim EVMC_SUCCESS (sample_state 50 [5; 40] empty_memory) 4%nat
              5 40 [] eq_refl ltac:(lia) ltac:(lia)) as (_ & H & _).
  vm_compute in H. discriminate H.
Qed.

Lemma return_contract_witness :
  let state := sample_state 50 [5; 40] empty_memory in
  let checked := snd (reference_check_memory 1024 state 5 40) in
  let final := snd (op_return (collaborators := reference_collaborators 1024)
                      EVMC_REVERT 4 state) in
  stack final = [5; 40] /\
  status final = EVMC_REVERT /\
  memory_range (memory final) (output_offset final) (output_size final)
  = memory_range (memory checked) 5 40.
Proof.
  destruct (return_contract (collaborators := reference_collaborators 1024)
              EVMC_REVERT (sample_state 50 [5; 40] empty_memory) 4 5 40 [] eq_refl)
    as (_ & _ & Hstack & _ & _ & _ & Hout & _).
  split; [ apply Hstack; reflexivity | ].
  apply Hout; [ reflexivity | lia | intros _; lia ].
Defined.

Lemma invalid_and_undefined_instruction_witness :
  let gas_costs := fun (_ : evmc_revision) (opcode : Z) =>
                     if opcode =? OP_INVALID then 0 else -1 in
  let table := get_op_table (-1) gas_costs (fun _ => (0, 0)) EVMC_FRONTIER in
  let state := sample_state 50 [] empty_memory in
  OpTableEntry.fn (table OP_INVALID) = Some Fn.op_invalid /\
  exists f,
    OpTableEntry.fn (table 0x0c) = Some f /\
    invoke (collaborators := reference_collaborators 1024) f 0 state
    = (None, set_status EVMC_UNDEFINED_INSTRUCTION state).
Proof.
  pose proof (invalid_and_undefined_instruction
                (collaborators := reference_collaborators 1024) (-1)
                (fun (_ : evmc_revision) (opcode : Z) =>
                   if opcode =? OP_INVALID then 0 else -1)
                (fun _ => (0, 0)) EVMC_FRONTIER
                (sample_state 50 [] empty_memory) 0) as (_ & Hinvalid & Hundefined & _).
  split.
  - apply Hinvalid. vm_compute. discriminate.
  - apply (Hundefined 0x0c). reflexivity.
Defined.

(** The looping stream meets the hypotheses of termination. *)
Lemma looping_analysis_well_formed : well_formed_stream looping_analysis.
Proof.
  constructor.
  - discriminate.
  - intros p i Hnth Hlast. cbn in Hlast.
    assert (p = 3%nat) by lia. subst p. cbn in Hnth. injection Hnth as <-. reflexivity.
  - intros dst Hdst. unfold find_jumpdest in *. cbn [jumpdest_lookup looping_analysis] in *.
    destruct (dst =? 0); [ | lia ].
    eexists. split; [ reflexivity | split; [ reflexivity | cbn; lia ] ].
Qed.

(** The looping stream runs out of gas. *)
Example looping_analysis_runs_out_of_gas :
  execute (collaborators := reference_collaborators 1024)
    (iteration_bound 10 4) (reference_fresh tt) tt EVMC_BERLIN {| gas := 10 |}
    looping_analysis []
  = Some {| status_code := EVMC_OUT_OF_GAS; result_gas_left := 0; output_data := [] |}.
Proof. vm_compute. reflexivity. Qed.

Lemma execute_terminates_witness :
  exists result : evmc_result,
    forall more : nat,
      execute (collaborators := reference_collaborators 1024)
        (iteration_bound 10 (length (instrs looping_analysis)) + more)
        (reference_fresh tt) tt EVMC_BERLIN {| gas := 10 |} looping_analysis []
      = Some result.
Proof.
  apply (execute_terminates (collaborators := reference_collaborators 1024)
           (reference_fresh tt) tt EVMC_BERLIN {| gas := 10 |} looping_analysis []).
  - apply reference_step_contracts.
  - apply looping_analysis_well_formed.
  - cbn. lia.
Defined.

Lemma gas_seen_inside_block_witness :
  let state := sample_state 100 [] empty_memory in
  let entered := set_current_block_cost 11%N (set_gas_left 89 state) in
  gas_left entered = 100 - 11 /\
  op_gas 2 entered = (Some 3%nat, stack_push (100 mod 2 ^ 64) entered).
Proof.
  pose proof (gas_seen_inside_block (collaborators := reference_collaborators 1024)
                (sample_state 100 [] empty_memory)
                (set_current_block_cost 11%N
                   (set_gas_left 89 (sample_state 100 [] empty_memory)))
                0 2 1 eq_refl) as (Hgas & Hpush & _).
  split; [ exact Hgas | exact Hpush ].
Defined.

Lemma packed_offsets_decode_witness :
  let w := packed_offsets 160 64 112 0 + 2 ^ 128 * 5 in
  out_offset_of w = 160 /\ x_offset_of w = 64 /\ y_offset_of w = 112 /\
  mod_offset_of w = 0.
Proof.
  apply (packed_offsets_decode 160 64 112 0 5); lia.
Defined.

Lemma print_number_round_trip_witness :
  exists text,
    written (print_number (fun i => i + 1) 2 cout) = written cout ++ text /\
    length text = (16 * Z.to_nat 2)%nat /\
    hex_value text = limbs_value (cells (fun i => i + 1) (Z.to_nat 2)) /\
    base (print_number (fun i => i + 1) 2 cout) = hex /\
    fill (print_number (fun i => i + 1) 2 cout) = "0"%char /\
    width (print_number (fun i => i + 1) 2 cout) = 0%nat.
Proof.
  apply (print_number_round_trip (fun i => i + 1) 2 cout); [ lia | intros i Hi; lia ].
Defined.

Lemma print_bytes_round_trip_witness :
  exists text,
    written (print_bytes384 (fun k => k) cout) = written cout ++ text ++ ["010"%char] /\
    length text = 96%nat /\
    hex_value text = big_endian_value (cells (fun k => k) 48) /\
    base (print_bytes384 (fun k => k) cout) = dec /\
    fill (print_bytes384 (fun k => k) cout) = "0"%char.
Proof.
  apply (proj1 (print_bytes_round_trip (fun k => k) cout ltac:(intros k Hk; lia))).
Defined.

Lemma null_handler_iff_priced_and_unimplemented_witness :
  OpTableEntry.fn (get_op_table (-1) (fun _ _ => 3) (fun _ => (0, 0)) EVMC_BERLIN 0x0c) = None
  <-> 3 <> -1 /\ implemented 0x0c = false.
Proof.
  apply (null_handler_iff_priced_and_unimplemented (-1) (fun _ _ => 3) (fun _ => (0, 0))
           EVMC_BERLIN 0x0c).
  lia.
Defined.
